(** * Product catalog (main.js): models, service, renderer, controller
    
    A shallow embedding of [src/main.js] and the properties of its
    parse / query / render pipeline.
    
    Conventions of the embedding.
    - A JavaScript string is its sequence of UTF-16 code units
    ([jsstring]); [length] and [substring] count code units, as the
    language does.
    - A value that may be absent ([undefined] or [null]) is an [option].
    - A method that can throw returns a [Completion].
    - Objects that the program mutates ([ProductService], the DOM
    elements, the console) are threaded explicitly. *)

From Stdlib Require Import ZArith Ascii String.
From stdpp Require Import base decidable option list numbers countable
  gmap pretty.

Local Open Scope Z_scope.

(* ================================================================== *)
(** * JavaScript strings *)
(* ================================================================== *)

Definition jsstring : Type := list N.

Module Utf16.

(** Code units of one code point: itself below 0x10000, a surrogate
    pair above. *)
Definition encode (cp : N) : jsstring :=
  if (cp <? 65536)%N then [cp]
  else let v := (cp - 65536)%N in
       [(55296 + v / 1024)%N; (56320 + v mod 1024)%N].

(** The source file is UTF-8; [of_utf8 bs 0 0] is the string value of a
    literal whose source bytes are [bs]. [acc] holds the bits of the code
    point read so far and [need] the continuation bytes still expected. *)
Fixpoint of_utf8 (bs : list N) (acc : N) (need : nat) : jsstring :=
  match bs with
  | [] => []
  | b :: rest =>
      match need with
      | O =>
          if (b <? 128)%N then b :: of_utf8 rest 0%N O
          else if (b <? 224)%N then of_utf8 rest (b mod 32)%N 1%nat
          else if (b <? 240)%N then of_utf8 rest (b mod 16)%N 2%nat
          else of_utf8 rest (b mod 8)%N 3%nat
      | S O => encode (acc * 64 + b mod 64)%N ++ of_utf8 rest 0%N O
      | S n => of_utf8 rest (acc * 64 + b mod 64)%N n
      end
  end.

Definition DQUOTE : N := 34.
Definition BACKQUOTE : N := 96.

End Utf16.

(** [js lit] is the value of the source literal [lit]. Inside [lit] a
    backquote stands for the double-quote character (none of the
    program's literals holds a backquote of its own). *)
Definition js (lit : string) : jsstring :=
  (λ u, if (u =? Utf16.BACKQUOTE)%N then Utf16.DQUOTE else u)
    <$> Utf16.of_utf8 (N_of_ascii <$> list_ascii_of_string lit) 0%N O.

Module JsString.

Definition clamp (n : Z) (len : nat) : nat :=
  Z.to_nat (Z.min (Z.max n 0) (Z.of_nat len)).

(** [String.prototype.substring(start, end)]: both arguments are clamped
    to [0, length] and swapped when [start > end]. *)
Definition substring (s : jsstring) (start finish : Z) : jsstring :=
  let a := clamp start (length s) in
  let b := clamp finish (length s) in
  let from := Nat.min a b in
  let to := Nat.max a b in
  take (to - from) (drop from s).

(** Truthiness of a string value: every string but the empty one. *)
Definition truthy (s : jsstring) : bool :=
  match s with [] => false | _ :: _ => true end.

(** [x || d] where [x] is a string or absent. *)
Definition or_else (x : option jsstring) (d : jsstring) : jsstring :=
  match x with
  | Some s => if truthy s then s else d
  | None => d
  end.

(** [Number.prototype.toString] of an integer: its decimal digits, with
    a leading minus sign when negative. *)
Definition of_int (n : Z) : jsstring := js (pretty n).

End JsString.

(* ================================================================== *)
(** * JavaScript arrays *)
(* ================================================================== *)

Module JsArray.
Section Methods.
Context {A B : Type}.

(** [Array.prototype.filter]: visits the elements by increasing index
    and appends the accepted ones to the result. *)
Fixpoint filter_from (f : A → bool) (a : list A) (acc : list A) : list A :=
  match a with
  | [] => acc
  | x :: rest => filter_from f rest (if f x then acc ++ [x] else acc)
  end.
Definition filter (f : A → bool) (a : list A) : list A :=
  filter_from f a [].

(** [Array.prototype.find]: the first accepted element, or
    [undefined]. *)
Fixpoint find (f : A → bool) (a : list A) : option A :=
  match a with
  | [] => None
  | x :: rest => if f x then Some x else find f rest
  end.

(** [Array.prototype.forEach] with a callback that updates the state
    [S] it closes over. *)
Fixpoint forEach {S : Type} (f : A → S → S) (a : list A) (s : S) : S :=
  match a with
  | [] => s
  | x :: rest => forEach f rest (f x s)
  end.

(** [Array.prototype.map] with a callback that does not throw. *)
Fixpoint map (f : A → B) (a : list A) : list B :=
  match a with
  | [] => []
  | x :: rest => f x :: map f rest
  end.

End Methods.

(** [Array.prototype.join(sep)] on an array of strings. *)
Fixpoint join (sep : jsstring) (a : list jsstring) : jsstring :=
  match a with
  | [] => []
  | [x] => x
  | x :: rest => x ++ sep ++ join sep rest
  end.

End JsArray.

(* ================================================================== *)
(** * Exceptions *)
(* ================================================================== *)

Inductive JsError : Type :=
| Error (message : jsstring)   (* [new Error(message)] thrown by the program *)
| TypeError                    (* property read on [undefined] or [null] *)
| ReferenceError.              (* read of an undeclared identifier *)

Inductive Completion (A : Type) : Type :=
| Normal (a : A)
| Throw (e : JsError).
Arguments Normal {A} a.
Arguments Throw {A} e.

#[global] Instance Completion_ret : MRet Completion := @Normal.
#[global] Instance Completion_bind : MBind Completion := λ A B k c,
  match c with
  | Normal a => k a
  | Throw e => Throw e
  end.

(** [Array.prototype.map] with a callback that may throw: the first
    exception aborts the traversal. *)
Fixpoint map_throwing {A B} (f : A → Completion B) (a : list A)
  : Completion (list B) :=
  match a with
  | [] => Normal []
  | x :: rest =>
      y ← f x;
      ys ← map_throwing f rest;
      Normal (y :: ys)
  end.

(* ================================================================== *)
(** * Models *)
(* ================================================================== *)

(** The raw records handed to the constructors ([data]). *)
Module CategoryData.
Record t : Type := mk {
  id : Z;
  name : jsstring;
  slug : jsstring;
  image : jsstring;
  creationAt : jsstring;
  updatedAt : jsstring
}.
End CategoryData.

Module ProductData.
Record t : Type := mk {
  id : Z;
  title : jsstring;
  slug : jsstring;
  price : Z;
  description : option jsstring;
  category : option CategoryData.t;
  images : option (list jsstring);
  creationAt : jsstring;
  updatedAt : jsstring
}.
End ProductData.

(** [new Date(s)] never throws; the timestamp is kept as the text it was
    built from. *)
Definition Date : Type := jsstring.
Definition Date_new (s : jsstring) : Date := s.

Module Category.

Record t : Type := mk {
  id : Z;
  name : jsstring;
  slug : jsstring;
  image : jsstring;
  creationAt : Date;
  updatedAt : Date
}.

(** [constructor(data)]: reading [data.id] throws when [data] is
    absent. *)
Definition new (data : option CategoryData.t) : Completion t :=
  match data with
  | None => Throw TypeError
  | Some d =>
      Normal {| id := CategoryData.id d;
                name := CategoryData.name d;
                slug := CategoryData.slug d;
                image := CategoryData.image d;
                creationAt := Date_new (CategoryData.creationAt d);
                updatedAt := Date_new (CategoryData.updatedAt d) |}
  end.

Definition getDisplayName (this : t) : jsstring :=
  JsString.or_else (Some (name this)) (js "Uncategorized").

End Category.

Module Product.

Record t : Type := mk {
  id : Z;
  title : jsstring;
  slug : jsstring;
  price : Z;
  description : option jsstring;
  category : Category.t;
  images : list jsstring;
  creationAt : Date;
  updatedAt : Date
}.

Definition new (data : ProductData.t) : Completion t :=
  c ← Category.new (ProductData.category data);
  Normal {| id := ProductData.id data;
            title := ProductData.title data;
            slug := ProductData.slug data;
            price := ProductData.price data;
            description := ProductData.description data;
            category := c;
            (* data.images || [] : an array, even an empty one, is truthy *)
            images := default [] (ProductData.images data);
            creationAt := Date_new (ProductData.creationAt data);
            updatedAt := Date_new (ProductData.updatedAt data) |}.

Definition NO_IMAGE : jsstring :=
  js "https://placehold.co/600x400?text=No+Image".

(** [this.images[0] || NO_IMAGE] *)
Definition getPrimaryImage (this : t) : jsstring :=
  JsString.or_else (images this !! 0%nat) NO_IMAGE.

Definition NO_DESCRIPTION : jsstring := js "No description available".
Definition ELLIPSIS : jsstring := js "...".

Definition getShortDescription (this : t) (maxLength : Z) : jsstring :=
  match description this with
  | None => NO_DESCRIPTION
  | Some d =>
      if negb (JsString.truthy d) then NO_DESCRIPTION
      else if Z.of_nat (length d) <=? maxLength then d
      else JsString.substring d 0 maxLength ++ ELLIPSIS
  end.

(** The parameter's default value. *)
Definition DEFAULT_MAX_LENGTH : Z := 100.

End Product.


(* ================================================================== *)
(** * Service *)
(* ================================================================== *)

(** The built-in [Map]: keys are compared by value and entries keep
    their insertion order, which [values()] follows. *)
Module JsMap.

Abbreviation t K V := (list (K * V)).

Section Map.
Context {K V : Type} `{EqDecision K}.

Definition empty : t K V := [].

Fixpoint has (k : K) (m : t K V) : bool :=
  match m with
  | [] => false
  | (k', _) :: rest => if decide (k' = k) then true else has k rest
  end.

(** An existing key keeps its position and takes the new value; a new
    key goes last. *)
Fixpoint set (k : K) (v : V) (m : t K V) : t K V :=
  match m with
  | [] => [(k, v)]
  | (k', v') :: rest =>
      if decide (k' = k) then (k', v) :: rest else (k', v') :: set k v rest
  end.

Definition values (m : t K V) : list V := snd <$> m.

End Map.
End JsMap.

Module ProductService.

Record t : Type := mk { products : list Product.t }.

Definition new : t := {| products := [] |}.

(** [this.products] is assigned only once every record has been
    converted: an exception leaves the service as it was. *)
Definition loadFromJson (this : t) (jsonData : list ProductData.t)
  : Completion (t * list Product.t) :=
  ps ← map_throwing Product.new jsonData;
  Normal ({| products := ps |}, ps).

Definition getAllProducts (this : t) : list Product.t := products this.

Definition getProductCount (this : t) : nat := length (products this).

Definition findById (this : t) (id : Z) : option Product.t :=
  JsArray.find (λ product, Product.id product =? id) (products this).

Definition filterByCategory (this : t) (categorySlug : jsstring)
  : list Product.t :=
  JsArray.filter
    (λ product,
       bool_decide (Category.slug (Product.category product) = categorySlug))
    (products this).

Definition getUniqueCategories (this : t) : list Category.t :=
  let categoryMap :=
    JsArray.forEach
      (λ product (categoryMap : JsMap.t Z Category.t),
         if negb (JsMap.has (Category.id (Product.category product)) categoryMap)
         then JsMap.set (Category.id (Product.category product))
                        (Product.category product) categoryMap
         else categoryMap)
      (products this) JsMap.empty in
  JsMap.values categoryMap.

End ProductService.

(* ================================================================== *)
(** * Host environment *)
(* ================================================================== *)

(** [Intl.NumberFormat('vi-VN', {style: 'currency', currency: 'USD'})]:
    the text the host produces for a price. *)
Class Intl : Type := { format_vi_VN_USD : Z → jsstring }.

Module Dom.

(** What an element holds: the markup last assigned to [innerHTML], or
    the text last assigned to [textContent]. *)
Inductive Content : Type :=
  | Markup (html : jsstring)
  | TextData (text : jsstring).

(** The elements of the page that carry an id. An element is referred
    to by that id. *)
Definition Ref : Type := jsstring.

Definition getElementById (doc : gmap jsstring Content) (id : jsstring)
  : option Ref :=
  match doc !! id with
  | Some _ => Some id
  | None => None
  end.

Definition set_innerHTML (el : Ref) (html : jsstring)
    (doc : gmap jsstring Content) : gmap jsstring Content :=
  <[el := Markup html]> doc.

Definition set_textContent (el : Ref) (text : jsstring)
    (doc : gmap jsstring Content) : gmap jsstring Content :=
  <[el := TextData text]> doc.

Definition AMP : N := 38.
Definition LT : N := 60.
Definition GT : N := 62.
Definition NBSP : N := 160.

(** Serialisation of a Text node, as [innerHTML] of its parent reads it
    (HTML Standard, escaping a string, outside attribute mode): the
    ampersand, the no-break space and the two angle brackets are
    replaced, every other code unit is kept. *)
Definition escape_unit (u : N) : jsstring :=
  if (u =? AMP)%N then js "&amp;"
  else if (u =? NBSP)%N then js "&nbsp;"
  else if (u =? LT)%N then js "&lt;"
  else if (u =? GT)%N then js "&gt;"
  else [u].

Definition serialize_text (text : jsstring) : jsstring :=
  text ≫= escape_unit.

End Dom.

(** Global bindings that [handleError] reads. *)
Module Globals.

(** [process.env], when it is an object. *)
Record env_t : Type := mk_env { NODE_ENV : option jsstring }.

(** [process], when it is an object. *)
Record process_t : Type := mk_process { env : option env_t }.

(** An identifier is either not declared at all, or declared with a
    value, which may itself be [undefined]. *)
Inductive binding (A : Type) : Type :=
  | Undeclared
  | Declared (value : option A).
Arguments Undeclared {A}.
Arguments Declared {A} value.

Record t : Type := mk {
  console_defined : bool;   (* typeof console !== 'undefined' *)
  process : binding process_t
}.

End Globals.

(** The part of the host that the program writes to. *)
Record World : Type := mkWorld {
  document : gmap jsstring Dom.Content;
  console_error : list (jsstring * JsError)
}.

(* ================================================================== *)
(** * Renderer *)
(* ================================================================== *)

Module ProductRenderer.

Record t : Type := mk { container : Dom.Ref }.

Definition new (doc : gmap jsstring Dom.Content) (containerId : jsstring)
  : Completion t :=
  match Dom.getElementById doc containerId with
  | Some el => Normal {| container := el |}
  | None =>
      Throw (Error (js "Container with id `" ++ containerId ++ js "` not found"))
  end.

(** A detached [div] receives [str] as its only Text child and is read
    back through [innerHTML]. *)
Definition escapeHtml (str : jsstring) : jsstring :=
  if negb (JsString.truthy str) then []
  else Dom.serialize_text str.

Definition createProductCardHtml `{Intl} (product : Product.t) : jsstring :=
  js "
            <article class=`product-card` data-product-id=`"
  ++ JsString.of_int (Product.id product) ++
  js "`>
                <div class=`product-card__image-wrapper`>
                    <img 
                        class=`product-card__image` 
                        src=`"
  ++ escapeHtml (Product.getPrimaryImage product) ++
  js "` 
                        alt=`"
  ++ escapeHtml (Product.title product) ++
  js "`
                        loading=`lazy`
                        onerror=`this.src='https://placehold.co/600x400?text=Error'`
                    >
                    <span class=`product-card__category`>
                        "
  ++ escapeHtml (Category.getDisplayName (Product.category product)) ++
  js "
                    </span>
                </div>
                <div class=`product-card__body`>
                    <h2 class=`product-card__title`>"
  ++ escapeHtml (Product.title product) ++
  js "</h2>
                    <p class=`product-card__description`>"
  ++ escapeHtml
       (Product.getShortDescription product Product.DEFAULT_MAX_LENGTH) ++
  js "</p>
                    <div class=`product-card__footer`>
                        <span class=`product-card__price`>"
  ++ format_vi_VN_USD (Product.price product) ++
  js "</span>
                        <span class=`product-card__id`>ID: "
  ++ JsString.of_int (Product.id product) ++
  js "</span>
                    </div>
                </div>
            </article>
        ".

Definition NO_PRODUCTS : jsstring :=
  js "<p style=`text-align: center; color: var(--color-text-muted);`>Không có sản phẩm nào</p>".

Definition renderProducts `{Intl} (this : t) (products : list Product.t)
    (doc : gmap jsstring Dom.Content) : gmap jsstring Dom.Content :=
  if (length products =? 0)%nat then
    Dom.set_innerHTML (container this) NO_PRODUCTS doc
  else
    let html := JsArray.join []
                  (JsArray.map (λ product, createProductCardHtml product)
                               products) in
    Dom.set_innerHTML (container this) html doc.

Definition LOADING : jsstring :=
  js "
            <div class=`loading`>
                <div class=`loading__spinner`></div>
            </div>
        ".

Definition showLoading (this : t) (doc : gmap jsstring Dom.Content)
  : gmap jsstring Dom.Content :=
  Dom.set_innerHTML (container this) LOADING doc.

Definition error_html (message : jsstring) : jsstring :=
  js "
            <p style=`text-align: center; color: var(--color-error); padding: 2rem;`>
                ❌ "
  ++ escapeHtml message ++
  js "
            </p>
        ".

Definition showError (this : t) (message : jsstring)
    (doc : gmap jsstring Dom.Content) : gmap jsstring Dom.Content :=
  Dom.set_innerHTML (container this) (error_html message) doc.

End ProductRenderer.

(* ================================================================== *)
(** * Application controller *)
(* ================================================================== *)

Module ProductCatalogApp.

Record t : Type := mk {
  productService : ProductService.t;
  productRenderer : ProductRenderer.t;
  productCountElement : option Dom.Ref
}.

Definition new (doc : gmap jsstring Dom.Content) : Completion t :=
  renderer ← ProductRenderer.new doc (js "productGrid");
  Normal {| productService := ProductService.new;
            productRenderer := renderer;
            productCountElement := Dom.getElementById doc (js "productCount") |}.

Definition updateProductCount (this : t) (count : nat)
    (doc : gmap jsstring Dom.Content) : gmap jsstring Dom.Content :=
  match productCountElement this with
  | Some el =>
      Dom.set_textContent el
        (JsString.of_int (Z.of_nat count) ++ js " sản phẩm") doc
  | None => doc
  end.

Definition LOAD_FAILED : jsstring :=
  js "Có lỗi xảy ra khi tải dữ liệu sản phẩm".

(** [process?.env?.NODE_ENV !== 'production'], for a declared
    [process]. *)
Definition not_production (process : option Globals.process_t) : bool :=
  match process with
  | None => true
  | Some p =>
      match Globals.env p with
      | None => true
      | Some e =>
          match Globals.NODE_ENV e with
          | None => true
          | Some mode => negb (bool_decide (mode = js "production"))
          end
      end
  end.

Definition handleError (g : Globals.t) (this : t) (error : JsError)
    (w : World) : World * Completion () :=
  let w1 := {| document :=
                 ProductRenderer.showError (productRenderer this) LOAD_FAILED
                   (document w);
               console_error := console_error w |} in
  if Globals.console_defined g then
    match Globals.process g with
    | Globals.Undeclared => (w1, Throw ReferenceError)
    | Globals.Declared process =>
        if not_production process then
          ({| document := document w1;
              console_error :=
                console_error w1 ++ [(js "ProductCatalogApp Error:", error)] |},
           Normal ())
        else (w1, Normal ())
    end
  else (w1, Normal ()).

(** The statements inside [try]. *)
Definition init_try `{Intl} (this : t) (PRODUCT_DATA : list ProductData.t)
    (w : World) : t * World * Completion () :=
  let w1 := {| document :=
                 ProductRenderer.showLoading (productRenderer this) (document w);
               console_error := console_error w |} in
  match ProductService.loadFromJson (productService this) PRODUCT_DATA with
  | Throw error => (this, w1, Throw error)
  | Normal (service, products) =>
      let this1 := {| productService := service;
                      productRenderer := productRenderer this;
                      productCountElement := productCountElement this |} in
      let w2 := {| document :=
                     updateProductCount this1 (length products) (document w1);
                   console_error := console_error w1 |} in
      let w3 := {| document :=
                     ProductRenderer.renderProducts (productRenderer this1)
                       products (document w2);
                   console_error := console_error w2 |} in
      (this1, w3, Normal ())
  end.

Definition init `{Intl} (g : Globals.t) (this : t)
    (PRODUCT_DATA : list ProductData.t) (w : World)
  : t * World * Completion () :=
  match init_try this PRODUCT_DATA w with
  | (this1, w1, Throw error) =>
      let '(w2, outcome) := handleError g this1 error w1 in
      (this1, w2, outcome)
  | completed => completed
  end.

End ProductCatalogApp.

(** The [DOMContentLoaded] listener: build the controller, then run it.
    An exception of the constructor ends the listener before [init]. *)
Definition main `{Intl} (g : Globals.t) (PRODUCT_DATA : list ProductData.t)
    (w : World) : World * Completion () :=
  match ProductCatalogApp.new (document w) with
  | Throw error => (w, Throw error)
  | Normal app =>
      let '(_, w1, outcome) := ProductCatalogApp.init g app PRODUCT_DATA w in
      (w1, outcome)
  end.

(* ================================================================== *)
(** * Notions used in the statements *)
(* ================================================================== *)

(** What [new Product(data)] builds when [data.category] is present. *)
Definition product_of (data : ProductData.t) (c : CategoryData.t) : Product.t :=
  {| Product.id := ProductData.id data;
     Product.title := ProductData.title data;
     Product.slug := ProductData.slug data;
     Product.price := ProductData.price data;
     Product.description := ProductData.description data;
     Product.category :=
       {| Category.id := CategoryData.id c;
          Category.name := CategoryData.name c;
          Category.slug := CategoryData.slug c;
          Category.image := CategoryData.image c;
          Category.creationAt := Date_new (CategoryData.creationAt c);
          Category.updatedAt := Date_new (CategoryData.updatedAt c) |};
     Product.images := default [] (ProductData.images data);
     Product.creationAt := Date_new (ProductData.creationAt data);
     Product.updatedAt := Date_new (ProductData.updatedAt data) |}.

(** The service as a caller finds it after [loadFromJson(jsonData)],
    whether the call returned or threw. *)
Definition after_load (this : ProductService.t) (jsonData : list ProductData.t)
  : ProductService.t :=
  match ProductService.loadFromJson this jsonData with
  | Normal (service, _) => service
  | Throw _ => this
  end.

(** The category id of a product. *)
Definition category_id (product : Product.t) : Z :=
  Category.id (Product.category product).

(** The callback of [getUniqueCategories]. *)
Definition remember (product : Product.t) (categoryMap : JsMap.t Z Category.t)
  : JsMap.t Z Category.t :=
  if negb (JsMap.has (category_id product) categoryMap)
  then JsMap.set (category_id product) (Product.category product) categoryMap
  else categoryMap.

(** Position and element of the first product of category id [k]. *)
Definition first_of_category (k : Z) (ps : list Product.t)
  : option (nat * Product.t) :=
  list_find (λ q, category_id q = k) ps.

(** What the scan has built after any prefix: the keys are distinct, they
    are the category ids met so far, each entry holds the category of the
    first product with that id, and the entries are ordered as those
    first products are. *)
Definition scan_invariant (ps : list Product.t) (m : JsMap.t Z Category.t)
  : Prop :=
  NoDup m.*1
  ∧ (∀ k, k ∈ m.*1 ↔ k ∈ category_id <$> ps)
  ∧ (∀ i k c, m !! i = Some (k, c) →
       k = Category.id c
       ∧ ∃ n p, first_of_category k ps = Some (n, p) ∧ Product.category p = c)
  ∧ (∀ i j ei ej ni pi nj pj,
       m !! i = Some ei → m !! j = Some ej → (i < j)%nat →
       first_of_category ei.1 ps = Some (ni, pi) →
       first_of_category ej.1 ps = Some (nj, pj) →
       (ni < nj)%nat).

(** The message of the exception thrown for a missing container. *)
Definition container_not_found (containerId : jsstring) : JsError :=
  Error (js "Container with id `" ++ containerId ++ js "` not found").

(** The page as the failing run of [init] finds it when its handler
    starts: the grid shows the loading state. *)
Definition loading_page (this : ProductCatalogApp.t) (w : World) : World :=
  {| document :=
       ProductRenderer.showLoading (ProductCatalogApp.productRenderer this)
         (document w);
     console_error := console_error w |}.

(** A code unit that the serialisation of text keeps as it is. *)
Definition plain_unit (u : N) : Prop :=
  u ≠ Dom.AMP ∧ u ≠ Dom.NBSP ∧ u ≠ Dom.LT ∧ u ≠ Dom.GT.

#[global] Instance plain_unit_dec (u : N) : Decision (plain_unit u).
Proof. unfold plain_unit. apply _. Defined.

(** What follows the ampersand in the four character references that
    the serialisation writes. *)
Definition reference_tails : list jsstring :=
  [js "amp;"; js "nbsp;"; js "lt;"; js "gt;"].

(** The markup that [renderProducts] assigns for a list of products. *)
Definition list_html `{Intl} (products : list Product.t) : jsstring :=
  match products with
  | [] => ProductRenderer.NO_PRODUCTS
  | _ :: _ => mjoin (ProductRenderer.createProductCardHtml <$> products)
  end.

(** The operations that change what the container shows. *)
Inductive view_op : Type :=
| ShowLoading
| ShowError (message : jsstring)
| RenderProducts (products : list Product.t).

Definition run_view `{Intl} (this : ProductRenderer.t) (op : view_op)
    (doc : gmap jsstring Dom.Content) : gmap jsstring Dom.Content :=
  match op with
  | ShowLoading => ProductRenderer.showLoading this doc
  | ShowError message => ProductRenderer.showError this message doc
  | RenderProducts products => ProductRenderer.renderProducts this products doc
  end.

(** The markup that an operation assigns. *)
Definition view_html `{Intl} (op : view_op) : jsstring :=
  match op with
  | ShowLoading => ProductRenderer.LOADING
  | ShowError message => ProductRenderer.error_html message
  | RenderProducts products => list_html products
  end.



(** The text of the count read-out for [count] products. *)
Definition count_text (count : nat) : jsstring :=
  JsString.of_int (Z.of_nat count) ++ js " sản phẩm".

(* ================================================================== *)
(** * Sample data used by the closed examples *)
(* ================================================================== *)

Definition sample_category (id : Z) (name slug : string) : CategoryData.t :=
  {| CategoryData.id := id;
     CategoryData.name := js name;
     CategoryData.slug := js slug;
     CategoryData.image := js "https://i.imgur.com/QkIa5tT.jpeg";
     CategoryData.creationAt := js "2026-01-27T11:46:15.000Z";
     CategoryData.updatedAt := js "2026-01-28T02:54:10.000Z" |}.

Definition sample_record (id : Z) (title : string)
    (description : option jsstring) (category : option CategoryData.t)
    (images : option (list jsstring)) : ProductData.t :=
  {| ProductData.id := id;
     ProductData.title := js title;
     ProductData.slug := js "sample";
     ProductData.price := 50;
     ProductData.description := description;
     ProductData.category := category;
     ProductData.images := images;
     ProductData.creationAt := js "2026-01-27T16:44:10.000Z";
     ProductData.updatedAt := js "2026-01-27T16:44:10.000Z" |}.

Definition clothes : CategoryData.t := sample_category 1 "Clothes" "clothes".
Definition shoes : CategoryData.t := sample_category 4 "Shoes" "shoes".

(** After record 200 of the embedded data set. *)
Definition sweater : ProductData.t :=
  sample_record 200 "Sweater" (Some (js "Test sweater")) (Some clothes)
    (Some [js "https://placehold.co/600x400"]).

(** A record without an [images] field. *)
Definition sweater_no_images : ProductData.t :=
  sample_record 200 "Sweater" (Some (js "Test sweater")) (Some clothes) None.

(** A record whose first image is the empty string. *)
Definition sweater_blank_image : ProductData.t :=
  sample_record 200 "Sweater" (Some (js "Test sweater")) (Some clothes)
    (Some [[]; js "https://placehold.co/600x400"]).

(** A record without a [category] field. *)
Definition sweater_no_category : ProductData.t :=
  sample_record 201 "Sweater" (Some (js "Test sweater")) None
    (Some [js "https://placehold.co/600x400"]).

(** Three products: two in Clothes, then one in Shoes. *)
Definition cap : ProductData.t :=
  sample_record 192 "Vintage Mood Indigo Cap" (Some (js "A stylish cap."))
    (Some (sample_category 1 "Clothes (copy)" "clothes")) None.
Definition sneakers : ProductData.t :=
  sample_record 187 "Fire Red Sport Sneakers" None (Some shoes) (Some []).
Definition three_products : list Product.t :=
  [product_of sweater clothes;
   product_of cap (sample_category 1 "Clothes (copy)" "clothes");
   product_of sneakers shoes].

(** The records of [three_products]. *)
Definition three_records : list ProductData.t := [sweater; cap; sneakers].

(** The converted product of a record that has a category. *)
Definition converts_to (r : ProductData.t) (p : Product.t) : Prop :=
  ∃ c, ProductData.category r = Some c ∧ p = product_of r c.

(** A stand-in for the host's currency formatter. *)
Definition sample_intl : Intl :=
  {| format_vi_VN_USD := λ price, JsString.of_int price ++ js ",00 US$" |}.

(** A page with the grid and the count read-out, and an empty console. *)
Definition sample_page : World :=
  {| document := <[js "productGrid" := Dom.Markup []]>
                   (<[js "productCount" := Dom.TextData []]> ∅);
     console_error := [] |}.

(** A page without the grid. *)
Definition page_without_grid : World :=
  {| document := <[js "productCount" := Dom.TextData []]> ∅;
     console_error := [] |}.

(** The controller that [new ProductCatalogApp()] builds on a page that
    has both elements. *)
Definition sample_app : ProductCatalogApp.t :=
  {| ProductCatalogApp.productService := ProductService.new;
     ProductCatalogApp.productRenderer :=
       {| ProductRenderer.container := js "productGrid" |};
     ProductCatalogApp.productCountElement := Some (js "productCount") |}.

(** A bundler build for production: [process.env.NODE_ENV] is
    ['production']. *)
Definition production_build : Globals.t :=
  {| Globals.console_defined := true;
     Globals.process :=
       Globals.Declared
         (Some {| Globals.env :=
                    Some {| Globals.NODE_ENV := Some (js "production") |} |}) |}.

(** A development build. *)
Definition development_build : Globals.t :=
  {| Globals.console_defined := true;
     Globals.process :=
       Globals.Declared
         (Some {| Globals.env :=
                    Some {| Globals.NODE_ENV := Some (js "development") |} |}) |}.

(** A page that loads the script as it is: there is a console and no
    [process] identifier. *)
Definition plain_browser : Globals.t :=
  {| Globals.console_defined := true;
     Globals.process := Globals.Undeclared |}.

(** A data set whose second record has no category. *)
Definition broken_data : list ProductData.t := [sweater; sweater_no_category].

(** A record whose title closes the attribute it is put in. *)
Definition quoting_title : jsstring := js "x` onmouseover=`alert(1)".
Definition quoting_record : ProductData.t :=
  {| ProductData.id := 200;
     ProductData.title := quoting_title;
     ProductData.slug := js "sweater";
     ProductData.price := 50;
     ProductData.description := Some (js "Test sweater");
     ProductData.category := Some clothes;
     ProductData.images := Some [js "https://placehold.co/600x400"];
     ProductData.creationAt := js "2026-01-27T16:44:10.000Z";
     ProductData.updatedAt := js "2026-01-27T16:44:10.000Z" |}.

(** [H : u ∈ js lit]: go through the code units of the literal. *)
Ltac escaped_unit H :=
  vm_compute in H;
  repeat (apply elem_of_cons in H as [-> | H]; [done |]);
  by apply elem_of_nil in H.

(* ================================================================== *)
(** * Literals and string helpers *)
(* ================================================================== *)

Example js_ascii : js "a<b" = [97; 60; 98]%N.
Proof. reflexivity. Qed.

Example js_two_byte_sequence : js "Không" = [75; 104; 244; 110; 103]%N.
Proof. reflexivity. Qed.

Example js_three_byte_sequence : js "❌" = [10060]%N.
Proof. reflexivity. Qed.

Example js_surrogate_pair : js "😀" = [55357; 56832]%N.
Proof. reflexivity. Qed.

Example js_double_quote : js "a`b" = [97; 34; 98]%N.
Proof. reflexivity. Qed.

Example of_int_negative : JsString.of_int (-15) = js "-15".
Proof. reflexivity. Qed.

Example substring_swaps : JsString.substring (js "hello") 3 (-2) = js "hel".
Proof. reflexivity. Qed.

Lemma substring_prefix (s : jsstring) (n : Z) :
  0 ≤ n → JsString.substring s 0 n = take (Z.to_nat n) s.
Proof.
  intros Hn. unfold JsString.substring, JsString.clamp.
  replace (Z.to_nat (Z.min (Z.max 0 0) (Z.of_nat (length s)))) with 0%nat by lia.
  rewrite Nat.min_0_l, Nat.max_0_l, Nat.sub_0_r, drop_0.
  destruct (Z.le_ge_cases n (Z.of_nat (length s))) as [Hle|Hge].
  - f_equal. lia.
  - rewrite !take_ge by lia. reflexivity.
Qed.

Lemma truthy_nonempty (s : jsstring) : JsString.truthy s = true ↔ s ≠ [].
Proof. destruct s; simpl; split; congruence. Qed.

Lemma new_product (data : ProductData.t) :
  Product.new data =
    match ProductData.category data with
    | Some c => Normal (product_of data c)
    | None => Throw TypeError
    end.
Proof. unfold Product.new. destruct (ProductData.category data); reflexivity. Qed.

(* ================================================================== *)
(** * Product *)
(* ================================================================== *)

(** C2. For a non-negative [maxLength]: an absent or empty description
    gives the placeholder text; a description of at most [maxLength] code
    units is returned unchanged; a longer one gives exactly its first
    [maxLength] code units followed by the ellipsis, which for
    [maxLength = 0] leaves the ellipsis alone. *)
Theorem getShortDescription_cases (p : Product.t) (maxLength : Z) :
  0 ≤ maxLength →
  (Product.description p = None ∨ Product.description p = Some [] →
     Product.getShortDescription p maxLength = Product.NO_DESCRIPTION)
  ∧ (∀ d, Product.description p = Some d → d ≠ [] →
       Z.of_nat (length d) ≤ maxLength →
       Product.getShortDescription p maxLength = d)
  ∧ (∀ d, Product.description p = Some d →
       maxLength < Z.of_nat (length d) →
       Product.getShortDescription p maxLength =
         take (Z.to_nat maxLength) d ++ Product.ELLIPSIS
       ∧ length (take (Z.to_nat maxLength) d) = Z.to_nat maxLength)
  ∧ (∀ d, Product.description p = Some d → d ≠ [] → maxLength = 0 →
       Product.getShortDescription p maxLength = Product.ELLIPSIS).
Proof.
  intros Hmax. unfold Product.getShortDescription.
  split; [|split; [|split]].
  - intros [-> | ->]; reflexivity.
  - intros d -> Hd Hlen.
    apply truthy_nonempty in Hd. rewrite Hd. simpl.
    destruct (Z.leb_spec (Z.of_nat (length d)) maxLength); [reflexivity | lia].
  - intros d -> Hlen.
    assert (Hd : JsString.truthy d = true).
    { apply truthy_nonempty. intros ->. simpl in Hlen. lia. }
    rewrite Hd. simpl.
    destruct (Z.leb_spec (Z.of_nat (length d)) maxLength); [lia |].
    rewrite substring_prefix by done.
    split; [reflexivity |]. rewrite length_take. lia.
  - intros d -> Hd ->.
    assert (0 < Z.of_nat (length d)).
    { destruct d; [done | simpl; lia]. }
    apply truthy_nonempty in Hd. rewrite Hd. simpl.
    destruct (Z.leb_spec (Z.of_nat (length d)) 0); [lia |].
    rewrite substring_prefix by done. reflexivity.
Qed.

Lemma getShortDescription_cases_witness :
  0 ≤ 4 ∧
  Product.getShortDescription (product_of sweater clothes) 4 = js "Test...".
Proof.
  split; [lia |].
  destruct (getShortDescription_cases (product_of sweater clothes) 4)
    as (_ & _ & Hlong & _); [lia |].
  destruct (Hlong (js "Test sweater")) as [-> _];
    [reflexivity | vm_compute; reflexivity | reflexivity].
Defined.

(** C5 as the specification words it: any non-empty [images] gives its
    first element. It fails when that element is the empty string,
    which [||] treats like a missing one. *)
Lemma getPrimaryImage_blank_first_counterexample :
  Product.new sweater_blank_image
    = Normal (product_of sweater_blank_image clothes)
  ∧ Product.images (product_of sweater_blank_image clothes)
    = [[]; js "https://placehold.co/600x400"]
  ∧ Product.getPrimaryImage (product_of sweater_blank_image clothes)
    = Product.NO_IMAGE
  ∧ ¬ (∀ p first rest, Product.images p = first :: rest →
         Product.getPrimaryImage p = first).
Proof.
  split; [reflexivity |]. split; [reflexivity |]. split; [reflexivity |].
  intros Hclaim.
  specialize (Hclaim (product_of sweater_blank_image clothes) [] _ eq_refl).
  vm_compute in Hclaim. discriminate Hclaim.
Qed.

(** C5, amended. A non-empty [images] whose first element is not the
    empty string gives that element; an empty [images], or one whose
    first element is the empty string, gives the placeholder URL, and so
    does a record built without an [images] field. *)
Theorem getPrimaryImage_cases (p : Product.t) :
  (∀ first rest, Product.images p = first :: rest → first ≠ [] →
     Product.getPrimaryImage p = first)
  ∧ (Product.images p = [] ∨ (∃ rest, Product.images p = [] :: rest) →
     Product.getPrimaryImage p = Product.NO_IMAGE)
  ∧ (∀ data, Product.new data = Normal p → ProductData.images data = None →
     Product.getPrimaryImage p = Product.NO_IMAGE).
Proof.
  unfold Product.getPrimaryImage. split; [|split].
  - intros first rest -> Hne. simpl.
    apply truthy_nonempty in Hne. rewrite Hne. reflexivity.
  - intros [-> | [rest ->]]; reflexivity.
  - intros data Hnew Hnone. rewrite new_product in Hnew.
    destruct (ProductData.category data) as [c|]; [|discriminate].
    injection Hnew as <-. simpl. rewrite Hnone. reflexivity.
Qed.

Lemma getPrimaryImage_cases_witness :
  Product.getPrimaryImage (product_of sweater clothes)
    = js "https://placehold.co/600x400"
  ∧ Product.getPrimaryImage (product_of sweater_no_images clothes)
    = Product.NO_IMAGE.
Proof.
  split.
  - apply (getPrimaryImage_cases (product_of sweater clothes)) with (rest := []);
      [reflexivity | discriminate].
  - apply (getPrimaryImage_cases (product_of sweater_no_images clothes));
      left; reflexivity.
Defined.

(** C10. A record without an [images] field builds a Product whose
    [images] is the empty array, and [getPrimaryImage] on it returns the
    placeholder URL; the construction itself succeeds whenever the record
    has a category. *)
Theorem absent_images_default (data : ProductData.t) :
  ProductData.images data = None →
  (∀ p, Product.new data = Normal p →
     Product.images p = [] ∧ Product.getPrimaryImage p = Product.NO_IMAGE)
  ∧ (∀ c, ProductData.category data = Some c →
     ∃ p, Product.new data = Normal p).
Proof.
  intros Hnone. rewrite new_product. split.
  - intros p Hnew.
    destruct (ProductData.category data) as [c|]; [|discriminate].
    injection Hnew as <-. unfold Product.getPrimaryImage. simpl.
    rewrite Hnone. split; reflexivity.
  - intros c ->. eauto.
Qed.

Lemma absent_images_default_witness :
  ProductData.images sweater_no_images = None
  ∧ Product.images (product_of sweater_no_images clothes) = []
  ∧ Product.getPrimaryImage (product_of sweater_no_images clothes)
    = Product.NO_IMAGE.
Proof.
  split; [reflexivity |].
  apply (absent_images_default sweater_no_images); reflexivity.
Defined.

(* ================================================================== *)
(** * Service *)
(* ================================================================== *)

Section ArrayFacts.
Context {A : Type}.

Lemma filter_from_filter (P : A → Prop) `{∀ x, Decision (P x)}
    (a acc : list A) :
  JsArray.filter_from (λ x, bool_decide (P x)) a acc = acc ++ filter P a.
Proof.
  revert acc. induction a as [|x a IH]; intros acc; simpl.
  - by rewrite app_nil_r.
  - rewrite IH, filter_cons. case_bool_decide; destruct (decide (P x)); try done.
    by rewrite <- app_assoc.
Qed.

Lemma find_list_find (P : A → Prop) `{∀ x, Decision (P x)} (a : list A) :
  JsArray.find (λ x, bool_decide (P x)) a = snd <$> list_find P a.
Proof.
  induction a as [|x a IH]; simpl; [done |].
  case_bool_decide; destruct (decide (P x)); try done.
  rewrite IH. by destruct (list_find P a) as [[??]|].
Qed.

Lemma forEach_snoc {S : Type} (f : A → S → S) (a : list A) (x : A) (s : S) :
  JsArray.forEach f (a ++ [x]) s = f x (JsArray.forEach f a s).
Proof. revert s. induction a as [|y a IH]; intros s; simpl; [done | apply IH]. Qed.

Lemma map_fmap {B : Type} (f : A → B) (a : list A) : JsArray.map f a = f <$> a.
Proof. induction a as [|x a IH]; simpl; [done | by rewrite IH]. Qed.

End ArrayFacts.

Lemma join_empty_separator (a : list jsstring) : JsArray.join [] a = mjoin a.
Proof.
  induction a as [|x a IH]; [done |].
  destruct a as [|y a]; [simpl; by rewrite app_nil_r |].
  change (JsArray.join [] (x :: y :: a)) with (x ++ [] ++ JsArray.join [] (y :: a)).
  by rewrite IH.
Qed.

Section MapFacts.
Context {V : Type}.
Implicit Types (m : JsMap.t Z V) (k : Z) (v : V).

Lemma has_keys k m : JsMap.has k m = true ↔ k ∈ m.*1.
Proof.
  induction m as [|[k' v'] m IH]; simpl.
  - split; [done | by intros ?%elem_of_nil].
  - rewrite elem_of_cons. destruct (decide (k' = k)) as [->|Hne].
    + split; auto.
    + rewrite IH. split; [auto | intros [?|?]; [congruence | done]].
Qed.

Lemma set_new_key k v m : JsMap.has k m = false → JsMap.set k v m = m ++ [(k, v)].
Proof.
  induction m as [|[k' v'] m IH]; simpl; [done |].
  destruct (decide (k' = k)); [done |]. intros Hm. by rewrite IH.
Qed.

End MapFacts.

Lemma remember_snoc (ps : list Product.t) (p : Product.t) :
  JsArray.forEach remember (ps ++ [p]) JsMap.empty =
    let m := JsArray.forEach remember ps JsMap.empty in
    if JsMap.has (category_id p) m then m
    else m ++ [(category_id p, Product.category p)].
Proof.
  rewrite forEach_snoc. unfold remember at 1. simpl.
  destruct (JsMap.has _ _) eqn:Hhas; simpl; [done |].
  by apply set_new_key.
Qed.

Lemma first_of_category_new (ps : list Product.t) (p : Product.t) :
  category_id p ∉ category_id <$> ps →
  first_of_category (category_id p) (ps ++ [p]) = Some (length ps, p).
Proof.
  intros Hnew. unfold first_of_category. apply list_find_app_Some. right.
  split; [lia |]. split.
  - apply list_find_None, Forall_forall. intros q Hq Heq.
    apply Hnew. rewrite <- Heq. by apply list_elem_of_fmap_2.
  - rewrite Nat.sub_diag. simpl. by rewrite decide_True.
Qed.

Lemma first_of_category_old (ps : list Product.t) (p : Product.t) (k : Z) :
  k ∈ category_id <$> ps →
  ∃ n q, (n < length ps)%nat
         ∧ first_of_category k ps = Some (n, q)
         ∧ first_of_category k (ps ++ [p]) = Some (n, q).
Proof.
  intros (q & -> & Hq)%list_elem_of_fmap.
  destruct (list_find_elem_of (λ q', category_id q' = category_id q) ps q)
    as [[n q'] Hfind]; [done.. |].
  exists n, q'. split_and!; [| done | by apply list_find_app_l].
  apply list_find_Some in Hfind as (Hn & _ & _). by eapply lookup_lt_Some.
Qed.

Lemma scan_invariant_holds (ps : list Product.t) :
  scan_invariant ps (JsArray.forEach remember ps JsMap.empty).
Proof.
  induction ps as [|p ps IH] using rev_ind.
  { simpl. unfold scan_invariant, JsMap.empty. split_and!.
    - constructor.
    - done.
    - intros i k c Hi. by destruct i.
    - intros i j ei ej ni pi nj pj Hi. by destruct i. }
  rewrite remember_snoc. simpl.
  set (m := JsArray.forEach remember ps JsMap.empty) in *.
  destruct IH as (Hnodup & Hkeys & Hfirst & Horder).
  assert (Hkeep : ∀ i e, m !! i = Some e →
            ∃ n q, (n < length ps)%nat
                   ∧ first_of_category e.1 ps = Some (n, q)
                   ∧ first_of_category e.1 (ps ++ [p]) = Some (n, q)).
  { intros i e Hi. apply first_of_category_old, Hkeys.
    apply list_elem_of_fmap_2. by eapply list_elem_of_lookup_2. }
  destruct (JsMap.has (category_id p) m) eqn:Hhas.
  - (* the id was met before: the map is unchanged *)
    apply has_keys in Hhas. split_and!.
    + done.
    + intros k. rewrite fmap_app, elem_of_app, <- Hkeys.
      simpl. rewrite list_elem_of_singleton.
      split; [by left | by intros [Hk | ->]].
    + intros i k c Hi. destruct (Hfirst i k c Hi) as (-> & n & q & Hq & Hc).
      split; [done |].
      destruct (Hkeep i _ Hi) as (n' & q' & _ & Hold & Hnew). simpl in *.
      exists n', q'. split; [done |]. congruence.
    + intros i j ei ej ni pi nj pj Hi Hj Hij Hni Hnj.
      destruct (Hkeep i _ Hi) as (ni' & qi & _ & Holdi & Hnewi).
      destruct (Hkeep j _ Hj) as (nj' & qj & _ & Holdj & Hnewj).
      rewrite Hnewi in Hni. rewrite Hnewj in Hnj.
      injection Hni as <- <-. injection Hnj as <- <-.
      by eapply (Horder i j).
  - (* a new id: one entry is appended *)
    assert (Hnew : category_id p ∉ category_id <$> ps).
    { rewrite <- Hkeys, <- has_keys. congruence. }
    split_and!.
    + rewrite fmap_app. apply NoDup_app. split_and!; [done | | ].
      * intros k Hk. simpl. rewrite list_elem_of_singleton. intros ->.
        by apply Hnew, Hkeys.
      * simpl. apply NoDup_singleton.
    + intros k. rewrite !fmap_app, !elem_of_app, Hkeys. simpl.
      by rewrite !list_elem_of_singleton.
    + intros i k c [Hi | [Hlen Hi]]%lookup_app_Some.
      * destruct (Hfirst i k c Hi) as (-> & n & q & Hq & Hc).
        split; [done |].
        destruct (Hkeep i _ Hi) as (n' & q' & _ & Hold & Hnew'). simpl in *.
        exists n', q'. split; [done |]. congruence.
      * apply list_lookup_singleton_Some in Hi as [_ [= <- <-]].
        split; [done |]. exists (length ps), p.
        split; [by apply first_of_category_new | done].
    + intros i j ei ej ni pi nj pj Hi Hj Hij Hni Hnj.
      apply lookup_app_Some in Hi as [Hi | [Hleni Hi]]; last first.
      { apply list_lookup_singleton_Some in Hi as [Hi0 _].
        apply lookup_lt_Some in Hj. rewrite length_app in Hj. simpl in Hj. lia. }
      destruct (Hkeep i _ Hi) as (ni' & qi & Hlt & Holdi & Hnewi).
      rewrite Hnewi in Hni. injection Hni as <- <-.
      apply lookup_app_Some in Hj as [Hj | [Hlenj Hj]].
      * destruct (Hkeep j _ Hj) as (nj' & qj & _ & Holdj & Hnewj).
        rewrite Hnewj in Hnj. injection Hnj as <- <-.
        by eapply (Horder i j).
      * apply list_lookup_singleton_Some in Hj as [_ <-]. simpl in Hnj.
        rewrite first_of_category_new in Hnj by done.
        injection Hnj as <- <-. done.
Qed.

Lemma getUniqueCategories_scan (this : ProductService.t) :
  ProductService.getUniqueCategories this =
    (JsArray.forEach remember (ProductService.products this) JsMap.empty).*2.
Proof. reflexivity. Qed.

(** C3. [getUniqueCategories] returns one entry per distinct category id
    of the loaded products: the ids of the entries are pairwise distinct
    and are exactly the ids that occur; each entry is the category of the
    first product with its id; and the entries stand in the order in
    which those first products occur. *)
Theorem getUniqueCategories_first_seen (this : ProductService.t) :
  let ps := ProductService.products this in
  let cats := ProductService.getUniqueCategories this in
  NoDup (Category.id <$> cats)
  ∧ (∀ k, k ∈ Category.id <$> cats ↔ k ∈ category_id <$> ps)
  ∧ (∀ c, c ∈ cats →
       ∃ n p, first_of_category (Category.id c) ps = Some (n, p)
              ∧ Product.category p = c)
  ∧ (∀ i j ci cj ni pi nj pj,
       cats !! i = Some ci → cats !! j = Some cj → (i < j)%nat →
       first_of_category (Category.id ci) ps = Some (ni, pi) →
       first_of_category (Category.id cj) ps = Some (nj, pj) →
       (ni < nj)%nat).
Proof.
  intros ps cats. subst cats. rewrite getUniqueCategories_scan. fold ps.
  destruct (scan_invariant_holds ps) as (Hnodup & Hkeys & Hfirst & Horder).
  set (m := JsArray.forEach remember ps JsMap.empty) in *.
  assert (Hentry : ∀ i c, m.*2 !! i = Some c → m !! i = Some (Category.id c, c)).
  { intros i c ([k c'] & -> & Hm)%list_lookup_fmap_Some. simpl.
    by destruct (Hfirst i k c' Hm) as [-> _]. }
  assert (Hids : Category.id <$> m.*2 = m.*1).
  { apply list_eq. intros i. rewrite !list_lookup_fmap.
    destruct (m !! i) as [[k c]|] eqn:Hm; simpl; [|done].
    by destruct (Hfirst i k c Hm) as [-> _]. }
  rewrite Hids. split_and!; [done | done | |].
  - intros c [i Hi]%list_elem_of_lookup_1.
    apply Hentry in Hi. by destruct (Hfirst i _ c Hi) as [_ ?].
  - intros i j ci cj ni pi nj pj Hi%Hentry Hj%Hentry Hij Hni Hnj.
    by eapply (Horder i j _ _ ni pi nj pj Hi Hj).
Qed.

Lemma getUniqueCategories_first_seen_witness :
  Category.id <$> ProductService.getUniqueCategories
                    {| ProductService.products := three_products |} = [1; 4]
  ∧ ∃ n p, first_of_category 1 three_products = Some (n, p)
           ∧ Category.name (Product.category p) = js "Clothes".
Proof.
  split; [reflexivity |].
  destruct (getUniqueCategories_first_seen
              {| ProductService.products := three_products |})
    as (_ & _ & Hfirst & _).
  destruct (Hfirst (Product.category (product_of sweater clothes)))
    as (n & p & Hp & Hc).
  - vm_compute. apply list_elem_of_here.
  - exists n, p. split; [exact Hp |]. rewrite Hc. reflexivity.
Defined.

(** C6. [filterByCategory(slug)] returns the products whose category slug
    equals [slug], in the order of the loaded sequence: it is a
    subsequence of the loaded products holding exactly the matching ones,
    and it is the empty array when nothing matches. *)
Theorem filterByCategory_subsequence (this : ProductService.t)
    (categorySlug : jsstring) :
  let ps := ProductService.products this in
  let found := ProductService.filterByCategory this categorySlug in
  found = filter (λ p, Category.slug (Product.category p) = categorySlug) ps
  ∧ found `sublist_of` ps
  ∧ (∀ p, p ∈ found ↔
          p ∈ ps ∧ Category.slug (Product.category p) = categorySlug)
  ∧ ((∀ p, p ∈ ps → Category.slug (Product.category p) ≠ categorySlug) →
     found = []).
Proof.
  intros ps found.
  assert (Hfound : found =
    filter (λ p, Category.slug (Product.category p) = categorySlug) ps).
  { subst found. unfold ProductService.filterByCategory, JsArray.filter.
    by rewrite filter_from_filter. }
  rewrite Hfound. split_and!.
  - done.
  - apply sublist_filter.
  - intros p. rewrite list_elem_of_filter. tauto.
  - intros Hnone.
    destruct (filter _ ps) as [|p l] eqn:Hf; [done |].
    assert (Hp : p ∈ filter
      (λ p, Category.slug (Product.category p) = categorySlug) ps)
      by (rewrite Hf; apply list_elem_of_here).
    apply list_elem_of_filter in Hp as [Hslug Hin]. by destruct (Hnone p Hin).
Qed.

Lemma filterByCategory_subsequence_witness :
  Product.id <$> ProductService.filterByCategory
                   {| ProductService.products := three_products |}
                   (js "clothes") = [200; 192]
  ∧ ProductService.filterByCategory
      {| ProductService.products := three_products |} (js "hats") = [].
Proof.
  split; [reflexivity |].
  apply (filterByCategory_subsequence
           {| ProductService.products := three_products |} (js "hats")).
  intros p Hp Hslug. vm_compute in Hp.
  repeat (apply elem_of_cons in Hp as [-> | Hp]; [vm_compute in Hslug; discriminate |]).
  by apply elem_of_nil in Hp.
Defined.

(** C4. Calling [loadFromJson] a second time with the same input leaves
    the service as the first call left it: the second call has the same
    outcome, and the product count and the result of [findById] for every
    id are the same after two calls as after one. *)
Theorem loadFromJson_twice (this : ProductService.t)
    (jsonData : list ProductData.t) :
  let once := after_load this jsonData in
  let twice := after_load once jsonData in
  ProductService.loadFromJson once jsonData
    = ProductService.loadFromJson this jsonData
  ∧ ProductService.getProductCount twice = ProductService.getProductCount once
  ∧ (∀ id, ProductService.findById twice id = ProductService.findById once id)
  ∧ ProductService.getAllProducts twice = ProductService.getAllProducts once.
Proof.
  intros once twice.
  assert (Hsame : ProductService.loadFromJson once jsonData
                  = ProductService.loadFromJson this jsonData) by reflexivity.
  assert (Htwice : twice = once).
  { subst twice. unfold after_load at 1. rewrite Hsame.
    subst once. unfold after_load.
    by destruct (ProductService.loadFromJson this jsonData) as [[??]|]. }
  rewrite Htwice. done.
Qed.

(* ================================================================== *)
(** * Renderer *)
(* ================================================================== *)

Lemma escape_unit_plain (u : N) :
  u ≠ Dom.AMP → u ≠ Dom.NBSP → u ≠ Dom.LT → u ≠ Dom.GT →
  Dom.escape_unit u = [u].
Proof.
  intros Hamp%N.eqb_neq Hnbsp%N.eqb_neq Hlt%N.eqb_neq Hgt%N.eqb_neq.
  unfold Dom.escape_unit. by rewrite Hamp, Hnbsp, Hlt, Hgt.
Qed.

(** The escaping removes both angle brackets from any text. *)
Lemma escapeHtml_no_angle_bracket (str : jsstring) (u : N) :
  u ∈ ProductRenderer.escapeHtml str → u ≠ Dom.LT ∧ u ≠ Dom.GT.
Proof.
  unfold ProductRenderer.escapeHtml.
  destruct (JsString.truthy str); simpl; [|by intros ?%elem_of_nil].
  unfold Dom.serialize_text. intros (v & Hu & _)%list_elem_of_bind.
  unfold Dom.escape_unit in Hu.
  destruct (N.eqb_spec v Dom.AMP); [by escaped_unit Hu |].
  destruct (N.eqb_spec v Dom.NBSP); [by escaped_unit Hu |].
  destruct (N.eqb_spec v Dom.LT); [by escaped_unit Hu |].
  destruct (N.eqb_spec v Dom.GT); [by escaped_unit Hu |].
  apply list_elem_of_singleton in Hu as ->. done.
Qed.

Lemma serialize_plain_text (text : jsstring) :
  Forall (λ u, u ≠ Dom.AMP ∧ u ≠ Dom.NBSP ∧ u ≠ Dom.LT ∧ u ≠ Dom.GT) text →
  Dom.serialize_text text = text.
Proof.
  unfold Dom.serialize_text.
  induction 1 as [|u l (? & ? & ? & ?) _ IH]; [done |].
  rewrite bind_cons, IH, escape_unit_plain by done. done.
Qed.

(** The escaping keeps every code unit other than the ampersand, the
    no-break space and the angle brackets, the double quote among them. *)
Lemma escapeHtml_keeps_plain_text (str : jsstring) :
  Forall (λ u, u ≠ Dom.AMP ∧ u ≠ Dom.NBSP ∧ u ≠ Dom.LT ∧ u ≠ Dom.GT) str →
  ProductRenderer.escapeHtml str = str.
Proof.
  intros Hplain. unfold ProductRenderer.escapeHtml.
  destruct str as [|u str]; [done |]. by apply serialize_plain_text.
Qed.

(** C1, at the failing input. Every text field of the card goes through
    [escapeHtml], which leaves the double quote as it is; the title is
    also put inside the double-quoted [alt] attribute, so the title
    [quoting_title] ends the attribute value and the card carries an
    [onmouseover] attribute that the template does not have. *)
Theorem createProductCardHtml_title_closes_alt :
  Product.new quoting_record = Normal (product_of quoting_record clothes)
  ∧ ProductRenderer.escapeHtml quoting_title = quoting_title
  ∧ Utf16.DQUOTE ∈ ProductRenderer.escapeHtml quoting_title
  ∧ ∀ I : Intl, ∃ before after,
      @ProductRenderer.createProductCardHtml I
        (product_of quoting_record clothes)
      = before ++ js "alt=`x` onmouseover=`alert(1)`" ++ after.
Proof.
  split_and!.
  - reflexivity.
  - reflexivity.
  - vm_compute. apply list_elem_of_further, list_elem_of_here.
  - intros I.
    exists (take 287 (@ProductRenderer.createProductCardHtml I
                        (product_of quoting_record clothes))),
           (drop 317 (@ProductRenderer.createProductCardHtml I
                        (product_of quoting_record clothes))).
    vm_compute. reflexivity.
Qed.

(** C8. [renderProducts] replaces what the container holds: the fixed
    no-products paragraph for an empty array, otherwise the card markup
    of every product, concatenated in the order of the array. Nothing of
    the former content is kept, every other element is left alone, and
    the no-products paragraph is not the markup of an error message. *)
Theorem renderProducts_replaces_content `{Intl} (this : ProductRenderer.t)
    (products : list Product.t) (doc : gmap jsstring Dom.Content) :
  let shown :=
    match products with
    | [] => ProductRenderer.NO_PRODUCTS
    | _ :: _ => mjoin (ProductRenderer.createProductCardHtml <$> products)
    end in
  ProductRenderer.renderProducts this products doc
    = <[ProductRenderer.container this := Dom.Markup shown]> doc
  ∧ ProductRenderer.renderProducts this products doc
      !! ProductRenderer.container this = Some (Dom.Markup shown)
  ∧ (∀ el, el ≠ ProductRenderer.container this →
       ProductRenderer.renderProducts this products doc !! el = doc !! el)
  ∧ (∀ old,
       ProductRenderer.renderProducts this products
         (<[ProductRenderer.container this := old]> doc)
       = ProductRenderer.renderProducts this products doc)
  ∧ (∀ message,
       ProductRenderer.NO_PRODUCTS ≠ ProductRenderer.error_html message).
Proof.
  intros shown.
  assert (Hrender : ∀ d, ProductRenderer.renderProducts this products d
            = <[ProductRenderer.container this := Dom.Markup shown]> d).
  { intros d. unfold ProductRenderer.renderProducts, Dom.set_innerHTML.
    subst shown. destruct products as [|p ps]; [done |].
    change (length (p :: ps) =? 0)%nat with false. cbv iota.
    by rewrite map_fmap, join_empty_separator. }
  rewrite !Hrender. split_and!.
  - done.
  - apply lookup_insert_eq.
  - intros el Hel. by apply lookup_insert_ne.
  - intros old. rewrite Hrender. apply insert_insert_eq.
  - intros message Heq. apply (f_equal head) in Heq. discriminate Heq.
Qed.

Lemma renderProducts_replaces_content_witness :
  @ProductRenderer.renderProducts sample_intl
     (ProductCatalogApp.productRenderer sample_app) [] (document sample_page)
    !! js "productGrid" = Some (Dom.Markup ProductRenderer.NO_PRODUCTS)
  ∧ @ProductRenderer.renderProducts sample_intl
      (ProductCatalogApp.productRenderer sample_app) [] (document sample_page)
    !! js "productCount" = Some (Dom.TextData []).
Proof.
  split.
  - apply (@renderProducts_replaces_content sample_intl
             (ProductCatalogApp.productRenderer sample_app) []).
  - destruct (@renderProducts_replaces_content sample_intl
                (ProductCatalogApp.productRenderer sample_app) []
                (document sample_page)) as (_ & _ & Hother & _).
    rewrite Hother by (intros Heq; vm_compute in Heq; discriminate Heq).
    unfold sample_page, document.
    rewrite lookup_insert_ne by (intros Heq; vm_compute in Heq; discriminate Heq).
    apply lookup_insert_eq.
Defined.

(* ================================================================== *)
(** * Application controller *)
(* ================================================================== *)

Lemma getElementById_Some (doc : gmap jsstring Dom.Content) (id : jsstring) :
  is_Some (doc !! id) → Dom.getElementById doc id = Some id.
Proof. intros [c Hc]. unfold Dom.getElementById. by rewrite Hc. Qed.

Lemma getElementById_None (doc : gmap jsstring Dom.Content) (id : jsstring) :
  doc !! id = None → Dom.getElementById doc id = None.
Proof. intros Hc. unfold Dom.getElementById. by rewrite Hc. Qed.

(** C9. When no element has the configured id, the renderer's
    constructor throws the container-not-found error, and with it the
    controller's constructor; the listener then ends with that error and
    has written nothing. The controller is built exactly when the
    container exists, and it then renders into that element. *)
Theorem constructor_requires_container (doc : gmap jsstring Dom.Content) :
  (∀ containerId, doc !! containerId = None →
     ProductRenderer.new doc containerId
       = Throw (container_not_found containerId))
  ∧ (doc !! js "productGrid" = None →
     ProductCatalogApp.new doc = Throw (container_not_found (js "productGrid")))
  ∧ (∀ (I : Intl) g PRODUCT_DATA w,
       document w = doc → doc !! js "productGrid" = None →
       main g PRODUCT_DATA w
         = (w, Throw (container_not_found (js "productGrid"))))
  ∧ (∀ app, ProductCatalogApp.new doc = Normal app →
       is_Some (doc !! js "productGrid")
       ∧ ProductRenderer.container (ProductCatalogApp.productRenderer app)
         = js "productGrid")
  ∧ (is_Some (doc !! js "productGrid") →
     ∃ app, ProductCatalogApp.new doc = Normal app).
Proof.
  assert (Hnone : ∀ containerId, doc !! containerId = None →
            ProductRenderer.new doc containerId
              = Throw (container_not_found containerId)).
  { intros containerId Hc. unfold ProductRenderer.new.
    by rewrite getElementById_None. }
  assert (Happ : doc !! js "productGrid" = None →
            ProductCatalogApp.new doc
              = Throw (container_not_found (js "productGrid"))).
  { intros Hc. unfold ProductCatalogApp.new. by rewrite Hnone. }
  split_and!.
  - done.
  - done.
  - intros I g PRODUCT_DATA w Hw Hc. unfold main. by rewrite Hw, Happ.
  - intros app Hnew. unfold ProductCatalogApp.new, ProductRenderer.new in Hnew.
    destruct (decide (is_Some (doc !! js "productGrid"))) as [Hc|Hc].
    + rewrite (getElementById_Some doc (js "productGrid")) in Hnew by done.
      simpl in Hnew.
      injection Hnew as <-. done.
    + apply eq_None_not_Some in Hc.
      rewrite (getElementById_None doc (js "productGrid")) in Hnew by done.
      discriminate Hnew.
  - intros Hc. unfold ProductCatalogApp.new, ProductRenderer.new.
    rewrite (getElementById_Some doc (js "productGrid")) by done. simpl. eauto.
Qed.

Lemma constructor_requires_container_witness :
  document page_without_grid !! js "productGrid" = None
  ∧ @main sample_intl plain_browser [sweater] page_without_grid
    = (page_without_grid, Throw (container_not_found (js "productGrid"))).
Proof.
  assert (Hc : document page_without_grid !! js "productGrid" = None).
  { unfold page_without_grid, document.
    rewrite lookup_insert_ne by (intros Heq; vm_compute in Heq; discriminate Heq).
    apply lookup_empty. }
  split; [exact Hc |].
  apply (constructor_requires_container (document page_without_grid));
    [reflexivity | exact Hc].
Defined.

Lemma new_on_sample_page :
  ProductCatalogApp.new (document sample_page) = Normal sample_app.
Proof.
  unfold ProductCatalogApp.new, ProductRenderer.new, sample_page, document.
  rewrite (getElementById_Some _ (js "productGrid"))
    by (rewrite lookup_insert_eq; eauto).
  simpl.
  rewrite (getElementById_Some _ (js "productCount")); [done |].
  rewrite lookup_insert_ne by (intros Heq; vm_compute in Heq; discriminate Heq).
  rewrite lookup_insert_eq. eauto.
Qed.

(** An exception inside [try] can only come from the conversion of the
    records; the page then shows the loading state and the service is as
    it was. *)
Lemma init_try_throws `{Intl} (this this1 : ProductCatalogApp.t)
    (PRODUCT_DATA : list ProductData.t) (w w1 : World) (error : JsError) :
  ProductCatalogApp.init_try this PRODUCT_DATA w = (this1, w1, Throw error) →
  this1 = this ∧ w1 = loading_page this w
  ∧ ProductService.loadFromJson (ProductCatalogApp.productService this)
      PRODUCT_DATA = Throw error.
Proof.
  unfold ProductCatalogApp.init_try.
  destruct (ProductService.loadFromJson _ _) as [[service products]|e];
    intros [= <- <- <-]; done.
Qed.

Lemma broken_data_throws :
  @ProductCatalogApp.init_try sample_intl sample_app broken_data sample_page
    = (sample_app, loading_page sample_app sample_page, Throw TypeError).
Proof. reflexivity. Qed.

(** C7 as the specification words it: the cause of every exception of the
    run is kept for diagnostics. In a production build the guard of
    [handleError] skips the logging: the exception is caught, the error
    message is shown, and the cause is recorded nowhere. *)
Lemma init_production_drops_cause_counterexample :
  ProductCatalogApp.new (document sample_page) = Normal sample_app
  ∧ (@ProductCatalogApp.init_try sample_intl sample_app broken_data
       sample_page).2 = Throw TypeError
  ∧ (@ProductCatalogApp.init sample_intl production_build sample_app
       broken_data sample_page).2 = Normal ()
  ∧ console_error
      (@ProductCatalogApp.init sample_intl production_build sample_app
         broken_data sample_page).1.2 = []
  ∧ ¬ (∀ (I : Intl) g this PRODUCT_DATA w error,
         (@ProductCatalogApp.init_try I this PRODUCT_DATA w).2 = Throw error →
         ∃ label,
           (label, error) ∈
             console_error (@ProductCatalogApp.init I g this PRODUCT_DATA w).1.2).
Proof.
  split_and!.
  - apply new_on_sample_page.
  - reflexivity.
  - reflexivity.
  - reflexivity.
  - intros Hclaim.
    destruct (Hclaim sample_intl production_build sample_app broken_data
                sample_page TypeError eq_refl) as [label Hlogged].
    change (console_error _) with (@nil (jsstring * JsError)) in Hlogged.
    by apply elem_of_nil in Hlogged.
Qed.

(** C7, amended. Whatever exception the statements of the run throw, the
    controller catches it and the container then holds the error
    paragraph with the fixed message, in which the cause does not occur.
    When the identifier [process] is declared, [init] then returns
    normally, and the cause is written to the console if there is a
    console and [NODE_ENV] is not [production]; otherwise nothing is
    recorded. *)
Theorem init_reports_failure `{Intl} (g : Globals.t)
    (this this1 : ProductCatalogApp.t) (PRODUCT_DATA : list ProductData.t)
    (w w1 : World) (error : JsError) :
  ProductCatalogApp.init_try this PRODUCT_DATA w = (this1, w1, Throw error) →
  let after := ProductCatalogApp.init g this PRODUCT_DATA w in
  let grid :=
    ProductRenderer.container (ProductCatalogApp.productRenderer this) in
  let shown := ProductRenderer.error_html ProductCatalogApp.LOAD_FAILED in
  document after.1.2 = <[grid := Dom.Markup shown]> (document w)
  ∧ document after.1.2 !! grid = Some (Dom.Markup shown)
  ∧ (∀ process, Globals.process g = Globals.Declared process →
       after.2 = Normal ()
       ∧ console_error after.1.2 =
           if Globals.console_defined g
              && ProductCatalogApp.not_production process
           then console_error w ++ [(js "ProductCatalogApp Error:", error)]
           else console_error w).
Proof.
  intros Htry after grid shown.
  destruct (init_try_throws _ _ _ _ _ _ Htry) as (-> & -> & _).
  assert (Hdoc : document after.1.2 = <[grid := Dom.Markup shown]> (document w)).
  { subst after. unfold ProductCatalogApp.init. rewrite Htry.
    unfold ProductCatalogApp.handleError.
    transitivity (ProductRenderer.showError
                    (ProductCatalogApp.productRenderer this)
                    ProductCatalogApp.LOAD_FAILED
                    (document (loading_page this w))).
    - destruct (Globals.console_defined g); [|done].
      destruct (Globals.process g) as [|process]; [done |].
      by destruct (ProductCatalogApp.not_production process).
    - unfold ProductRenderer.showError, loading_page, document,
        ProductRenderer.showLoading, Dom.set_innerHTML.
      apply insert_insert_eq. }
  split_and!.
  - done.
  - rewrite Hdoc. apply lookup_insert_eq.
  - intros process Hprocess. subst after.
    unfold ProductCatalogApp.init. rewrite Htry.
    unfold ProductCatalogApp.handleError. rewrite Hprocess.
    destruct (Globals.console_defined g); [|done].
    by destruct (ProductCatalogApp.not_production process).
Qed.

Lemma init_reports_failure_witness :
  @ProductCatalogApp.init_try sample_intl sample_app broken_data sample_page
    = (sample_app, loading_page sample_app sample_page, Throw TypeError)
  ∧ (@ProductCatalogApp.init sample_intl development_build sample_app
       broken_data sample_page).2 = Normal ()
  ∧ console_error
      (@ProductCatalogApp.init sample_intl development_build sample_app
         broken_data sample_page).1.2
    = [(js "ProductCatalogApp Error:", TypeError)].
Proof.
  split; [reflexivity |].
  destruct (@init_reports_failure sample_intl development_build sample_app
              sample_app broken_data sample_page
              (loading_page sample_app sample_page) TypeError eq_refl)
    as (_ & _ & Hdeclared).
  exact (Hdeclared _ eq_refl).
Defined.

(** Outside the amended statement: on a page where [process] is not
    declared, reading it throws inside the handler. The error paragraph
    is on the page, nothing is logged, and [init] ends with a
    [ReferenceError]. *)
Remark init_without_process :
  (@ProductCatalogApp.init sample_intl plain_browser sample_app broken_data
     sample_page).2 = Throw ReferenceError
  ∧ console_error
      (@ProductCatalogApp.init sample_intl plain_browser sample_app
         broken_data sample_page).1.2 = [].
Proof. split; reflexivity. Qed.

(* ================================================================== *)
(** * Further properties of the models *)
(* ================================================================== *)

Lemma substring_from_start (s : jsstring) (n : Z) :
  JsString.substring s 0 n = take (Z.to_nat n) s.
Proof.
  unfold JsString.substring, JsString.clamp.
  replace (Z.to_nat (Z.min (Z.max 0 0) (Z.of_nat (length s)))) with 0%nat by lia.
  rewrite Nat.min_0_l, Nat.max_0_l, Nat.sub_0_r, drop_0.
  destruct (Z.le_ge_cases n (Z.of_nat (length s))) as [Hle|Hge].
  - f_equal. lia.
  - rewrite !take_ge by lia. reflexivity.
Qed.

Lemma or_else_nonempty (x : option jsstring) (d : jsstring) :
  d ≠ [] → JsString.or_else x d ≠ [].
Proof.
  intros Hd. unfold JsString.or_else.
  destruct x as [[|u s]|]; simpl; done.
Qed.

Lemma escapeHtml_serialize (str : jsstring) :
  ProductRenderer.escapeHtml str = Dom.serialize_text str.
Proof. by destruct str. Qed.

Lemma escape_unit_nonempty (u : N) : Dom.escape_unit u ≠ [].
Proof.
  unfold Dom.escape_unit.
  repeat (match goal with |- context [if ?b then _ else _] => destruct b end);
    done.
Qed.

(** X1. The three texts that a card shows for a product are never the
    empty string: the category name, the image address and the short
    description (whatever [maxLength] is) each fall back to a fixed text,
    and escaping a non-empty text never empties it. *)
Theorem display_texts_never_empty (p : Product.t) (maxLength : Z) :
  Category.getDisplayName (Product.category p) ≠ []
  ∧ Product.getPrimaryImage p ≠ []
  ∧ Product.getShortDescription p maxLength ≠ []
  ∧ (∀ str, ProductRenderer.escapeHtml str = [] ↔ str = []).
Proof.
  split_and!.
  - by apply or_else_nonempty.
  - by apply or_else_nonempty.
  - unfold Product.getShortDescription.
    destruct (Product.description p) as [[|u d]|]; [done | | done].
    change (JsString.truthy (u :: d)) with true. simpl negb. cbv iota.
    destruct (Z.of_nat (length (u :: d)) <=? maxLength); [done |].
    intros [_ Hnil]%app_eq_nil. discriminate Hnil.
  - intros str. rewrite escapeHtml_serialize. split; [|by intros ->].
    destruct str as [|u str]; [done |].
    unfold Dom.serialize_text. rewrite bind_cons.
    intros [Hu _]%app_eq_nil. by destruct (escape_unit_nonempty u).
Qed.

(** X2. The short description is never longer than the larger of
    [maxLength + 3] and the 24 code units of the placeholder; a
    description that is present and not empty gives at most
    [maxLength + 3] code units, or 3 when [maxLength] is negative. *)
Theorem getShortDescription_length (p : Product.t) (maxLength : Z) :
  Z.of_nat (length (Product.getShortDescription p maxLength))
    ≤ Z.max (Z.max maxLength 0 + 3) 24
  ∧ (∀ d, Product.description p = Some d → d ≠ [] →
       Z.of_nat (length (Product.getShortDescription p maxLength))
         ≤ Z.max maxLength 0 + 3).
Proof.
  assert (Hsome : ∀ d, Product.description p = Some d → d ≠ [] →
            Z.of_nat (length (Product.getShortDescription p maxLength))
              ≤ Z.max maxLength 0 + 3).
  { intros d Hd Hne. unfold Product.getShortDescription. rewrite Hd.
    apply truthy_nonempty in Hne. rewrite Hne. simpl negb. cbv iota.
    destruct (Z.leb_spec (Z.of_nat (length d)) maxLength); [lia |].
    rewrite substring_from_start, length_app, length_take.
    change (length Product.ELLIPSIS) with 3%nat. lia. }
  split; [|done].
  destruct (Product.description p) as [d|] eqn:Hd.
  - destruct (decide (d = [])) as [->|Hne].
    + unfold Product.getShortDescription. rewrite Hd. simpl.
      change (length Product.NO_DESCRIPTION) with 24%nat. lia.
    + specialize (Hsome d eq_refl Hne). lia.
  - unfold Product.getShortDescription. rewrite Hd.
    change (length Product.NO_DESCRIPTION) with 24%nat. lia.
Qed.

Lemma getShortDescription_length_witness :
  Z.of_nat (length (Product.getShortDescription (product_of sweater clothes) 4))
    ≤ 4 + 3.
Proof.
  destruct (getShortDescription_length (product_of sweater clothes) 4)
    as [_ Hsome].
  apply (Hsome (js "Test sweater")); [reflexivity | discriminate].
Defined.

(** X3. A negative [maxLength] cuts a present, non-empty description
    down to nothing: the result is the ellipsis alone. *)
Theorem getShortDescription_negative (p : Product.t) (maxLength : Z)
    (d : jsstring) :
  maxLength < 0 → Product.description p = Some d → d ≠ [] →
  Product.getShortDescription p maxLength = Product.ELLIPSIS.
Proof.
  intros Hneg Hd Hne. unfold Product.getShortDescription. rewrite Hd.
  apply truthy_nonempty in Hne. rewrite Hne. simpl negb. cbv iota.
  destruct (Z.leb_spec (Z.of_nat (length d)) maxLength); [lia |].
  rewrite substring_from_start.
  replace (Z.to_nat maxLength) with 0%nat by lia. by rewrite take_0.
Qed.

Lemma getShortDescription_negative_witness :
  -1 < 0 ∧
  Product.getShortDescription (product_of sweater clothes) (-1) = js "...".
Proof.
  split; [lia |].
  apply (getShortDescription_negative (product_of sweater clothes) (-1)
           (js "Test sweater")); [lia | reflexivity | discriminate].
Defined.

(* ================================================================== *)
(** * Further properties of the service *)
(* ================================================================== *)

Lemma convert_Normal (data : list ProductData.t) (ps : list Product.t) :
  map_throwing Product.new data = Normal ps ↔ Forall2 converts_to data ps.
Proof.
  revert ps. induction data as [|r data IH]; intros ps; simpl.
  - split.
    + intros [= <-]. constructor.
    + intros ->%Forall2_nil_inv_l. done.
  - rewrite new_product.
    destruct (ProductData.category r) as [c|] eqn:Hc; simpl.
    + destruct (map_throwing Product.new data) as [qs|e] eqn:Hrest; simpl.
      * split.
        -- intros [= <-]. constructor; [by exists c | by apply IH].
        -- intros (p & ps' & (c' & Hc' & ->) & Hps & ->)%Forall2_cons_inv_l.
           apply IH in Hps as [= ->]. rewrite Hc in Hc'. by injection Hc' as <-.
      * split; [done |].
        intros (p & ps' & _ & Hps & ->)%Forall2_cons_inv_l.
        by apply IH in Hps.
    + split; [done |].
      intros (p & ps' & (c' & Hc' & _) & _)%Forall2_cons_inv_l.
      rewrite Hc in Hc'. discriminate Hc'.
Qed.

Lemma convert_Throw (data : list ProductData.t) (e : JsError) :
  map_throwing Product.new data = Throw e ↔
  e = TypeError ∧ ∃ r, r ∈ data ∧ ProductData.category r = None.
Proof.
  induction data as [|r data IH]; simpl.
  - split; [done | intros (_ & r & []%elem_of_nil & _)].
  - rewrite new_product.
    destruct (ProductData.category r) as [c|] eqn:Hc; simpl.
    + assert (Htail : (∃ r', r' ∈ r :: data ∧ ProductData.category r' = None)
                      ↔ ∃ r', r' ∈ data ∧ ProductData.category r' = None).
      { split; intros (r' & Hin & Hnone); exists r'.
        - apply elem_of_cons in Hin as [-> | Hin]; [congruence | done].
        - split; [by right | done]. }
      rewrite Htail, <- IH.
      destruct (map_throwing Product.new data) as [qs|e']; simpl; [done |].
      done.
    + split.
      * intros [= <-]. split; [done |]. exists r. split; [by left | done].
      * by intros (-> & _).
Qed.

Lemma convert_total (data : list ProductData.t) :
  (∀ r, r ∈ data → ProductData.category r ≠ None) →
  ∃ ps, map_throwing Product.new data = Normal ps.
Proof.
  intros Hall. destruct (map_throwing Product.new data) as [ps|e] eqn:Hmap.
  - eauto.
  - apply convert_Throw in Hmap as (_ & r & Hin & Hnone).
    by destruct (Hall r Hin).
Qed.

Lemma converted_ids (data : list ProductData.t) (ps : list Product.t) :
  Forall2 converts_to data ps → Product.id <$> ps = ProductData.id <$> data.
Proof.
  induction 1 as [|r p data ps (c & _ & ->) _ IH]; [done |].
  rewrite !fmap_cons, IH. done.
Qed.

Lemma find_first {A : Type} (f : A → bool) (P : A → Prop)
    `{∀ x, Decision (P x)} (a : list A) :
  (∀ x, f x = true ↔ P x) →
  JsArray.find f a = snd <$> list_find P a.
Proof.
  intros Hf. induction a as [|x a IH]; simpl; [done |].
  destruct (decide (P x)) as [HP|HP].
  - apply Hf in HP. by rewrite HP.
  - destruct (f x) eqn:Hfx; [by apply Hf in Hfx |].
    rewrite IH. by destruct (list_find P a) as [[??]|].
Qed.

Lemma findById_list_find (this : ProductService.t) (id : Z) :
  ProductService.findById this id =
    snd <$> list_find (λ p, Product.id p = id) (ProductService.products this).
Proof.
  unfold ProductService.findById. apply find_first.
  intros p. apply Z.eqb_eq.
Qed.

Lemma findById_NoDup (this : ProductService.t) (p : Product.t) :
  NoDup (Product.id <$> ProductService.products this) →
  p ∈ ProductService.products this →
  ProductService.findById this (Product.id p) = Some p.
Proof.
  intros Hnodup Hin. rewrite findById_list_find.
  destruct (list_find_elem_of (λ q, Product.id q = Product.id p)
              (ProductService.products this) p) as [[i q] Hfind]; [done.. |].
  rewrite Hfind. simpl. f_equal.
  apply list_find_Some in Hfind as (Hi & Hid & _).
  apply list_elem_of_lookup_1 in Hin as [j Hj].
  assert (i = j) as ->.
  { eapply (NoDup_lookup _ i j (Product.id p) Hnodup).
    - rewrite list_lookup_fmap, Hi. simpl. by rewrite Hid.
    - by rewrite list_lookup_fmap, Hj. }
  congruence.
Qed.

Lemma filterByCategory_filter (this : ProductService.t) (s : jsstring) :
  ProductService.filterByCategory this s =
    filter (λ p, Category.slug (Product.category p) = s)
      (ProductService.products this).
Proof.
  unfold ProductService.filterByCategory, JsArray.filter.
  by rewrite filter_from_filter.
Qed.

Lemma forEach_app {A S : Type} (f : A → S → S) (a b : list A) (s : S) :
  JsArray.forEach f (a ++ b) s = JsArray.forEach f b (JsArray.forEach f a s).
Proof. revert s. induction a as [|x a IH]; intros s; simpl; [done | apply IH]. Qed.

Lemma remember_known (qs : list Product.t) (m : JsMap.t Z Category.t) :
  (∀ q, q ∈ qs → category_id q ∈ m.*1) →
  JsArray.forEach remember qs m = m.
Proof.
  induction qs as [|q qs IH]; intros Hknown; simpl; [done |].
  assert (Hq : JsMap.has (category_id q) m = true).
  { apply has_keys, Hknown. by left. }
  unfold remember at 2. rewrite Hq. simpl.
  apply IH. intros q' Hq'. apply Hknown. by right.
Qed.

(** X4. When every record has a category, [loadFromJson] returns
    normally: it returns the array it stores, with one product per
    record, in the order of the input, each built from its record; the
    former content of the service plays no part. *)
Theorem loadFromJson_succeeds (this : ProductService.t)
    (jsonData : list ProductData.t) :
  (∀ r, r ∈ jsonData → ProductData.category r ≠ None) →
  ∃ ps,
    ProductService.loadFromJson this jsonData
      = Normal ({| ProductService.products := ps |}, ps)
    ∧ ProductService.getAllProducts (after_load this jsonData) = ps
    ∧ ProductService.getProductCount (after_load this jsonData)
      = length jsonData
    ∧ (∀ i r, jsonData !! i = Some r →
         ∃ c, ProductData.category r = Some c
              ∧ ps !! i = Some (product_of r c))
    ∧ Product.id <$> ps = ProductData.id <$> jsonData
    ∧ (∀ other, after_load other jsonData = after_load this jsonData).
Proof.
  intros Hall. destruct (convert_total jsonData Hall) as [ps Hps].
  exists ps.
  assert (Hload : ∀ service, ProductService.loadFromJson service jsonData
            = Normal ({| ProductService.products := ps |}, ps)).
  { intros service. unfold ProductService.loadFromJson. by rewrite Hps. }
  assert (Hafter : ∀ service,
            after_load service jsonData = {| ProductService.products := ps |}).
  { intros service. unfold after_load. by rewrite Hload. }
  apply convert_Normal in Hps.
  split_and!.
  - apply Hload.
  - by rewrite Hafter.
  - rewrite Hafter. unfold ProductService.getProductCount. simpl.
    symmetry. by eapply Forall2_length.
  - intros i r Hi.
    destruct (Forall2_lookup_l _ _ _ _ _ Hps Hi) as (p & Hp & c & Hc & ->).
    eauto.
  - by apply converted_ids.
  - intros other. by rewrite !Hafter.
Qed.

Lemma loadFromJson_succeeds_witness :
  Product.id <$> ProductService.getAllProducts
                   (after_load ProductService.new three_records)
    = [200; 192; 187]
  ∧ ProductService.getProductCount
      (after_load ProductService.new three_records) = 3%nat.
Proof.
  destruct (loadFromJson_succeeds ProductService.new three_records)
    as (ps & _ & Hall & Hcount & _ & Hids & _).
  - intros r Hr. vm_compute in Hr.
    repeat (apply elem_of_cons in Hr as [-> | Hr]; [discriminate |]).
    by apply elem_of_nil in Hr.
  - split; [|exact Hcount]. rewrite Hall. exact Hids.
Defined.

(** X5. [loadFromJson] throws exactly when some record has no category,
    and a [TypeError] is the only exception it throws; the service then
    keeps the products it had. *)
Theorem loadFromJson_throws (this : ProductService.t)
    (jsonData : list ProductData.t) :
  (ProductService.loadFromJson this jsonData = Throw TypeError ↔
     ∃ r, r ∈ jsonData ∧ ProductData.category r = None)
  ∧ (∀ e, ProductService.loadFromJson this jsonData = Throw e →
       e = TypeError ∧ after_load this jsonData = this).
Proof.
  assert (Hload : ∀ e, ProductService.loadFromJson this jsonData = Throw e ↔
            map_throwing Product.new jsonData = Throw e).
  { intros e. unfold ProductService.loadFromJson.
    destruct (map_throwing Product.new jsonData); simpl; split; congruence. }
  split.
  - rewrite Hload, convert_Throw. split; [by intros [_ ?] | done].
  - intros e He. split.
    + apply Hload, convert_Throw in He. by destruct He.
    + unfold after_load. by rewrite He.
Qed.

Lemma loadFromJson_throws_witness :
  ProductService.loadFromJson {| ProductService.products := three_products |}
    broken_data = Throw TypeError
  ∧ after_load {| ProductService.products := three_products |} broken_data
    = {| ProductService.products := three_products |}.
Proof.
  assert (Hthrow : ProductService.loadFromJson
            {| ProductService.products := three_products |} broken_data
            = Throw TypeError).
  { apply (loadFromJson_throws
             {| ProductService.products := three_products |} broken_data).
    exists sweater_no_category. split; [|reflexivity].
    apply list_elem_of_further, list_elem_of_here. }
  split; [exact Hthrow |].
  destruct (loadFromJson_throws
              {| ProductService.products := three_products |} broken_data)
    as [_ Hkeeps].
  exact (proj2 (Hkeeps TypeError Hthrow)).
Defined.

(** X6. [findById] returns the first product, in the order of the loaded
    sequence, whose id is the argument, and nothing when no product has
    that id. *)
Theorem findById_first_match (this : ProductService.t) (id : Z) :
  (∀ p, ProductService.findById this id = Some p ↔
        ∃ i, ProductService.products this !! i = Some p
             ∧ Product.id p = id
             ∧ ∀ j q, ProductService.products this !! j = Some q →
                      (j < i)%nat → Product.id q ≠ id)
  ∧ (ProductService.findById this id = None ↔
     ∀ p, p ∈ ProductService.products this → Product.id p ≠ id).
Proof.
  rewrite findById_list_find. split.
  - intros p. split.
    + destruct (list_find _ _) as [[i q]|] eqn:Hfind; [|done].
      intros [= <-]. exists i. by apply list_find_Some in Hfind.
    + intros (i & Hfind).
      apply (list_find_Some (λ q, Product.id q = id)) in Hfind.
      by rewrite Hfind.
  - rewrite fmap_None, list_find_None, Forall_forall. done.
Qed.

Lemma findById_first_match_witness :
  Product.title <$> ProductService.findById
                      {| ProductService.products := three_products |} 192
    = Some (js "Vintage Mood Indigo Cap")
  ∧ ProductService.findById
      {| ProductService.products := three_products |} 7 = None.
Proof.
  split; [reflexivity |].
  apply (findById_first_match {| ProductService.products := three_products |} 7).
  intros p Hp Hid. vm_compute in Hp.
  repeat (apply elem_of_cons in Hp as [-> | Hp]; [discriminate Hid |]).
  by apply elem_of_nil in Hp.
Defined.

(** X7. When the ids of the loaded products are pairwise distinct,
    [findById] with the id of any loaded product returns that very
    product. *)
Theorem findById_unique_ids (this : ProductService.t) (p : Product.t) :
  NoDup (Product.id <$> ProductService.products this) →
  p ∈ ProductService.products this →
  ProductService.findById this (Product.id p) = Some p.
Proof. apply findById_NoDup. Qed.

Lemma findById_unique_ids_witness :
  ProductService.findById {| ProductService.products := three_products |} 187
    = Some (product_of sneakers shoes).
Proof.
  apply (findById_unique_ids {| ProductService.products := three_products |}
           (product_of sneakers shoes)).
  - vm_compute. repeat constructor; intros Hin;
      repeat (apply elem_of_cons in Hin as [Hin | Hin]; [discriminate Hin |]);
      by apply elem_of_nil in Hin.
  - vm_compute. do 2 apply list_elem_of_further. apply list_elem_of_here.
Defined.

(** X8. Load, then look up: when every record has a category and the
    record ids are pairwise distinct, [findById] with the id of any
    record of the input returns the product built from that record. *)
Theorem findById_after_load (this : ProductService.t)
    (jsonData : list ProductData.t) (r : ProductData.t) (c : CategoryData.t) :
  (∀ r', r' ∈ jsonData → ProductData.category r' ≠ None) →
  NoDup (ProductData.id <$> jsonData) →
  r ∈ jsonData → ProductData.category r = Some c →
  ProductService.findById (after_load this jsonData) (ProductData.id r)
    = Some (product_of r c).
Proof.
  intros Hall Hnodup Hin Hc.
  destruct (convert_total jsonData Hall) as [ps Hps].
  assert (Hafter : after_load this jsonData
                   = {| ProductService.products := ps |}).
  { unfold after_load, ProductService.loadFromJson. by rewrite Hps. }
  rewrite Hafter. apply convert_Normal in Hps.
  assert (Hids : Product.id <$> ps = ProductData.id <$> jsonData)
    by by apply converted_ids.
  apply list_elem_of_lookup_1 in Hin as [i Hi].
  destruct (Forall2_lookup_l _ _ _ _ _ Hps Hi) as (p & Hp & c' & Hc' & ->).
  rewrite Hc in Hc'. injection Hc' as <-.
  apply (findById_NoDup {| ProductService.products := ps |} (product_of r c)).
  - simpl. by rewrite Hids.
  - simpl. by eapply list_elem_of_lookup_2.
Qed.

Lemma findById_after_load_witness :
  ProductService.findById (after_load ProductService.new three_records) 192
    = Some (product_of cap (sample_category 1 "Clothes (copy)" "clothes")).
Proof.
  apply (findById_after_load ProductService.new three_records cap).
  - intros r Hr. vm_compute in Hr.
    repeat (apply elem_of_cons in Hr as [-> | Hr]; [discriminate |]).
    by apply elem_of_nil in Hr.
  - vm_compute. repeat constructor; intros Hin;
      repeat (apply elem_of_cons in Hin as [Hin | Hin]; [discriminate Hin |]);
      by apply elem_of_nil in Hin.
  - apply list_elem_of_further, list_elem_of_here.
  - reflexivity.
Defined.

(** X9. Filtering by slug sorts the loaded products into disjoint groups:
    every product is found under the slug of its own category and under
    no other; filtering a group again by its slug changes nothing and by
    another slug leaves nothing; no group is larger than the catalog. *)
Theorem filterByCategory_groups (this : ProductService.t) :
  (∀ p, p ∈ ProductService.products this →
     p ∈ ProductService.filterByCategory this
           (Category.slug (Product.category p)))
  ∧ (∀ s1 s2 p, p ∈ ProductService.filterByCategory this s1 →
       p ∈ ProductService.filterByCategory this s2 → s1 = s2)
  ∧ (∀ s, ProductService.filterByCategory
            {| ProductService.products :=
                 ProductService.filterByCategory this s |} s
          = ProductService.filterByCategory this s)
  ∧ (∀ s1 s2, s1 ≠ s2 →
       ProductService.filterByCategory
         {| ProductService.products :=
              ProductService.filterByCategory this s1 |} s2 = [])
  ∧ (∀ s, (length (ProductService.filterByCategory this s)
           ≤ ProductService.getProductCount this)%nat).
Proof.
  split_and!.
  - intros p Hp. rewrite filterByCategory_filter. by apply list_elem_of_filter.
  - intros s1 s2 p. rewrite !filterByCategory_filter, !list_elem_of_filter.
    intros [<- _] [<- _]. done.
  - intros s. rewrite !filterByCategory_filter. simpl.
    rewrite list_filter_filter. apply list_filter_iff. tauto.
  - intros s1 s2 Hne. rewrite !filterByCategory_filter. simpl.
    rewrite list_filter_filter.
    destruct (filter _ _) as [|p l] eqn:Hf; [done |].
    assert (Hp : p ∈ p :: l) by apply list_elem_of_here.
    rewrite <- Hf in Hp. apply list_elem_of_filter in Hp as [[H2 H1] _].
    congruence.
  - intros s. rewrite filterByCategory_filter. apply length_filter.
Qed.

Lemma filterByCategory_groups_witness :
  product_of sneakers shoes
    ∈ ProductService.filterByCategory
        {| ProductService.products := three_products |} (js "shoes")
  ∧ ProductService.filterByCategory
      {| ProductService.products :=
           ProductService.filterByCategory
             {| ProductService.products := three_products |} (js "shoes") |}
      (js "clothes") = [].
Proof.
  destruct (filterByCategory_groups
              {| ProductService.products := three_products |})
    as (Hown & _ & _ & Hother & _).
  split.
  - apply (Hown (product_of sneakers shoes)).
    do 2 apply list_elem_of_further. apply list_elem_of_here.
  - apply Hother. intros Heq. vm_compute in Heq. discriminate Heq.
Defined.

(** X10. Products whose category ids were already met add nothing to
    the unique categories: appending such products to the loaded sequence
    leaves the result as it is, so loading every product twice over gives
    the categories of loading it once. *)
Theorem getUniqueCategories_repeats (ps qs : list Product.t) :
  (∀ q, q ∈ qs → category_id q ∈ category_id <$> ps) →
  ProductService.getUniqueCategories {| ProductService.products := ps ++ qs |}
    = ProductService.getUniqueCategories {| ProductService.products := ps |}
  ∧ ProductService.getUniqueCategories {| ProductService.products := ps ++ ps |}
    = ProductService.getUniqueCategories {| ProductService.products := ps |}.
Proof.
  assert (Hgen : ∀ qs', (∀ q, q ∈ qs' → category_id q ∈ category_id <$> ps) →
    ProductService.getUniqueCategories {| ProductService.products := ps ++ qs' |}
    = ProductService.getUniqueCategories {| ProductService.products := ps |}).
  { intros qs' Hknown. rewrite !getUniqueCategories_scan. simpl.
    rewrite forEach_app. f_equal. apply remember_known.
    intros q Hq. destruct (scan_invariant_holds ps) as (_ & Hkeys & _).
    by apply Hkeys, Hknown. }
  intros Hknown. split; [by apply Hgen |].
  apply Hgen. intros q Hq. by apply list_elem_of_fmap_2.
Qed.

Lemma getUniqueCategories_repeats_witness :
  Category.id <$> ProductService.getUniqueCategories
    {| ProductService.products :=
         three_products ++ [product_of sweater clothes] |} = [1; 4].
Proof.
  destruct (getUniqueCategories_repeats three_products
              [product_of sweater clothes]) as [-> _]; [|reflexivity].
  intros q ->%list_elem_of_singleton. vm_compute. apply list_elem_of_here.
Defined.

(** X11. There are never more unique categories than products, and none
    exactly when no product is loaded; when the category ids of the
    products are pairwise distinct, the result is the category of every
    product, in order. *)
Theorem getUniqueCategories_size (this : ProductService.t) :
  (length (ProductService.getUniqueCategories this)
     ≤ ProductService.getProductCount this)%nat
  ∧ (ProductService.getUniqueCategories this = [] ↔
     ProductService.products this = [])
  ∧ (NoDup (category_id <$> ProductService.products this) →
     ProductService.getUniqueCategories this
       = Product.category <$> ProductService.products this).
Proof.
  rewrite getUniqueCategories_scan. unfold ProductService.getProductCount.
  generalize (ProductService.products this). clear this. intros ps.
  induction ps as [|p ps IH] using rev_ind; [by split_and! |].
  destruct IH as (Hlen & Hnil & Hdistinct).
  rewrite remember_snoc. cbv zeta. rewrite length_app. simpl.
  destruct (JsMap.has (category_id p) _) eqn:Hhas.
  - split_and!.
    + lia.
    + split; [|by intros [_ ?]%app_eq_nil]. intros Hm.
      apply has_keys in Hhas. apply fmap_nil_inv in Hm. rewrite Hm in Hhas.
      by apply elem_of_nil in Hhas.
    + rewrite fmap_app. intros (_ & Hfresh & _)%NoDup_app.
      apply has_keys in Hhas.
      destruct (scan_invariant_holds ps) as (_ & Hkeys & _).
      apply Hkeys in Hhas. destruct (Hfresh _ Hhas). simpl. apply list_elem_of_here.
  - split_and!.
    + rewrite fmap_app, length_app. simpl. lia.
    + rewrite fmap_app. split; by intros [_ ?]%app_eq_nil.
    + rewrite !fmap_app. intros (Hps & _ & _)%NoDup_app.
      by rewrite Hdistinct.
Qed.

Lemma getUniqueCategories_size_witness :
  ProductService.getUniqueCategories
    {| ProductService.products :=
         [product_of sweater clothes; product_of sneakers shoes] |}
  = [Product.category (product_of sweater clothes);
     Product.category (product_of sneakers shoes)].
Proof.
  apply (getUniqueCategories_size
           {| ProductService.products :=
                [product_of sweater clothes; product_of sneakers shoes] |}).
  vm_compute. repeat constructor; intros Hin;
    repeat (apply elem_of_cons in Hin as [Hin | Hin]; [discriminate Hin |]);
    by apply elem_of_nil in Hin.
Defined.

(** X12. Every unique category has products: filtering by the slug of an
    entry of [getUniqueCategories] finds at least the product that the
    entry was taken from. *)
Theorem unique_categories_have_products (this : ProductService.t)
    (c : Category.t) :
  c ∈ ProductService.getUniqueCategories this →
  ∃ p, p ∈ ProductService.filterByCategory this (Category.slug c)
       ∧ Product.category p = c.
Proof.
  rewrite getUniqueCategories_scan.
  intros ([k c'] & -> & [i Hi]%list_elem_of_lookup_1)%list_elem_of_fmap.
  destruct (scan_invariant_holds (ProductService.products this))
    as (_ & _ & Hfirst & _).
  destruct (Hfirst i k c' Hi) as (_ & n & p & Hp & Hc).
  exists p. split; [|done].
  apply list_find_Some in Hp as (Hn & _ & _).
  rewrite filterByCategory_filter. apply list_elem_of_filter.
  split; [by rewrite Hc | by eapply list_elem_of_lookup_2].
Qed.

Lemma unique_categories_have_products_witness :
  ∃ p, p ∈ ProductService.filterByCategory
             {| ProductService.products := three_products |} (js "shoes")
       ∧ Category.id (Product.category p) = 4.
Proof.
  destruct (unique_categories_have_products
              {| ProductService.products := three_products |}
              (Product.category (product_of sneakers shoes)))
    as (p & Hp & Hc).
  - vm_compute. apply list_elem_of_further, list_elem_of_here.
  - exists p. split; [exact Hp |]. rewrite Hc. reflexivity.
Defined.

(* ================================================================== *)
(** * Further properties of the renderer *)
(* ================================================================== *)

Lemma escape_unit_cases (u : N) :
  (u = Dom.AMP ∧ Dom.escape_unit u = Dom.AMP :: js "amp;")
  ∨ (u = Dom.NBSP ∧ Dom.escape_unit u = Dom.AMP :: js "nbsp;")
  ∨ (u = Dom.LT ∧ Dom.escape_unit u = Dom.AMP :: js "lt;")
  ∨ (u = Dom.GT ∧ Dom.escape_unit u = Dom.AMP :: js "gt;")
  ∨ (plain_unit u ∧ Dom.escape_unit u = [u]).
Proof.
  unfold Dom.escape_unit, plain_unit.
  destruct (N.eqb_spec u Dom.AMP); [by left |].
  destruct (N.eqb_spec u Dom.NBSP); [by right; left |].
  destruct (N.eqb_spec u Dom.LT); [by right; right; left |].
  destruct (N.eqb_spec u Dom.GT); [by right; right; right; left |].
  by right; right; right; right.
Qed.

(** No text written for one code unit is a prefix of the text written
    for another. *)
Lemma escape_unit_prefix_free (u v : N) (a b : jsstring) :
  Dom.escape_unit u ++ a = Dom.escape_unit v ++ b → u = v ∧ a = b.
Proof.
  destruct (escape_unit_cases u)
    as [[-> ->]|[[-> ->]|[[-> ->]|[[-> ->]|[(?&?&?&?) ->]]]]];
  destruct (escape_unit_cases v)
    as [[-> ->]|[[-> ->]|[[-> ->]|[[-> ->]|[(?&?&?&?) ->]]]]];
  vm_compute; intros Heq; simplify_eq; done.
Qed.

Lemma serialize_length (text : jsstring) :
  (length text ≤ length (Dom.serialize_text text))%nat
  ∧ (¬ Forall plain_unit text →
     (length text < length (Dom.serialize_text text))%nat).
Proof.
  unfold Dom.serialize_text. induction text as [|u text [IHle IHlt]].
  - split; [done |]. intros []. constructor.
  - rewrite bind_cons, length_app.
    change (length (u :: text)) with (S (length text)).
    assert (Hu : (1 ≤ length (Dom.escape_unit u))%nat
                 ∧ (¬ plain_unit u → (1 < length (Dom.escape_unit u))%nat)).
    { destruct (escape_unit_cases u)
        as [[-> ->]|[[-> ->]|[[-> ->]|[[-> ->]|[? ->]]]]];
        (split; [vm_compute; lia | intros Hn; try done; vm_compute; lia]). }
    destruct Hu as [Hu1 Hu2]. split; [lia |].
    intros Hnot. destruct (decide (plain_unit u)) as [Hp|Hp].
    + assert (¬ Forall plain_unit text) by (intros ?; apply Hnot; by constructor).
      specialize (IHlt ltac:(done)). lia.
    + specialize (Hu2 Hp). lia.
Qed.

(** X13. Escaping goes through a text piece by piece: the escaped form
    of two texts put together is their escaped forms put together. *)
Theorem escapeHtml_app (s t : jsstring) :
  ProductRenderer.escapeHtml (s ++ t)
    = ProductRenderer.escapeHtml s ++ ProductRenderer.escapeHtml t.
Proof. rewrite !escapeHtml_serialize. apply bind_app. Qed.

(** X14. Escaping loses nothing: two texts with the same escaped form
    are the same text. *)
Theorem escapeHtml_injective (s t : jsstring) :
  ProductRenderer.escapeHtml s = ProductRenderer.escapeHtml t → s = t.
Proof.
  rewrite !escapeHtml_serialize. unfold Dom.serialize_text.
  revert t. induction s as [|u s IH]; intros [|v t]; rewrite ?bind_cons.
  - done.
  - intros Heq. symmetry in Heq. apply app_eq_nil in Heq as [Hv _].
    by destruct (escape_unit_nonempty v).
  - intros [Hu _]%app_eq_nil. by destruct (escape_unit_nonempty u).
  - intros [-> Hrest]%escape_unit_prefix_free. f_equal. by apply IH.
Qed.

Lemma escapeHtml_injective_witness :
  ProductRenderer.escapeHtml (js "a<b") = js "a&lt;b"
  ∧ js "a<b" = [97; 60; 98]%N.
Proof.
  split; [reflexivity |].
  apply (escapeHtml_injective (js "a<b") [97; 60; 98]%N). reflexivity.
Defined.

(** X15. Escaping never shortens a text, and it returns the text
    unchanged exactly when the text holds no ampersand, no-break space
    or angle bracket. *)
Theorem escapeHtml_unchanged_iff (str : jsstring) :
  (length str ≤ length (ProductRenderer.escapeHtml str))%nat
  ∧ (ProductRenderer.escapeHtml str = str ↔ Forall plain_unit str).
Proof.
  rewrite escapeHtml_serialize.
  destruct (serialize_length str) as [Hle Hlt]. split; [done |]. split.
  - intros Heq. destruct (decide (Forall plain_unit str)) as [|Hnot]; [done |].
    specialize (Hlt Hnot). rewrite Heq in Hlt. lia.
  - apply serialize_plain_text.
Qed.

Lemma escapeHtml_unchanged_iff_witness :
  ProductRenderer.escapeHtml (js "Test sweater") = js "Test sweater".
Proof.
  apply (escapeHtml_unchanged_iff (js "Test sweater")).
  vm_compute. repeat constructor; discriminate.
Defined.

Lemma ampersand_position (tail rest before after : jsstring) :
  Forall (λ x, x ≠ Dom.AMP) tail →
  (Dom.AMP :: tail) ++ rest = before ++ Dom.AMP :: after →
  (before = [] ∧ after = tail ++ rest)
  ∨ ∃ before', rest = before' ++ Dom.AMP :: after.
Proof.
  intros Htail. destruct before as [|x before]; simpl.
  { intros [= <-]. by left. }
  intros [= _ Heq]. right. revert before Heq.
  induction Htail as [|t tail Ht _ IH]; intros before; simpl.
  - intros ->. by exists before.
  - destruct before as [|y before]; simpl; intros [= ? Heq]; [done |].
    by apply (IH before).
Qed.

Lemma reference_tails_plain (tail : jsstring) :
  tail ∈ reference_tails → Forall (λ x, x ≠ Dom.AMP) tail.
Proof.
  unfold reference_tails. intros Hin.
  repeat (apply elem_of_cons in Hin as [-> | Hin];
          [vm_compute; repeat constructor; discriminate |]).
  by apply elem_of_nil in Hin.
Qed.

(** X16. The escaped form of any text is plain text for the parser: it
    holds no angle bracket and no no-break space, and each ampersand in
    it starts one of the four character references that the escaping
    writes. *)
Theorem escapeHtml_output_is_text (str : jsstring) :
  (∀ u, u ∈ ProductRenderer.escapeHtml str →
     u ≠ Dom.LT ∧ u ≠ Dom.GT ∧ u ≠ Dom.NBSP)
  ∧ (∀ before after,
       ProductRenderer.escapeHtml str = before ++ Dom.AMP :: after →
       ∃ tail rest, tail ∈ reference_tails ∧ after = tail ++ rest).
Proof.
  rewrite escapeHtml_serialize. unfold Dom.serialize_text. split.
  - intros u (v & Hu & _)%list_elem_of_bind.
    destruct (escape_unit_cases v)
      as [[-> Hv]|[[-> Hv]|[[-> Hv]|[[-> Hv]|[(?&?&?&?) Hv]]]]];
      rewrite Hv in Hu.
    1-4: vm_compute in Hu;
         repeat (apply elem_of_cons in Hu as [-> | Hu]; [done |]);
         by apply elem_of_nil in Hu.
    by apply list_elem_of_singleton in Hu as ->.
  - induction str as [|v str IH]; intros before after.
    { change ([] ≫= Dom.escape_unit) with (@nil N).
      intros Heq. by destruct before. }
    rewrite bind_cons.
    assert (Hreference : ∀ tail, tail ∈ reference_tails →
              (Dom.AMP :: tail) ++ str ≫= Dom.escape_unit
                = before ++ Dom.AMP :: after →
              ∃ tail' rest, tail' ∈ reference_tails ∧ after = tail' ++ rest).
    { intros tail Htail Heq.
      apply ampersand_position in Heq as [[_ ->] | [before' Heq]];
        [by eauto | by eapply IH | by apply reference_tails_plain]. }
    destruct (escape_unit_cases v)
      as [[-> Hv]|[[-> Hv]|[[-> Hv]|[[-> Hv]|[(Hamp&?&?&?) Hv]]]]];
      rewrite Hv; clear Hv.
    + apply Hreference. unfold reference_tails. set_solver.
    + apply Hreference. unfold reference_tails. set_solver.
    + apply Hreference. unfold reference_tails. set_solver.
    + apply Hreference. unfold reference_tails. set_solver.
    + destruct before as [|x before]; simpl; intros [= Hx Hrest].
      * by destruct Hamp.
      * by apply (IH before after).
Qed.

Lemma escapeHtml_output_is_text_witness :
  ∃ tail rest, tail ∈ reference_tails ∧ js "amp;B" = tail ++ rest.
Proof.
  destruct (escapeHtml_output_is_text (js "A&B")) as [_ Hamp].
  apply (Hamp (js "A") (js "amp;B")). reflexivity.
Defined.

Lemma renderProducts_insert `{Intl} (this : ProductRenderer.t)
    (products : list Product.t) (doc : gmap jsstring Dom.Content) :
  ProductRenderer.renderProducts this products doc
    = <[ProductRenderer.container this := Dom.Markup (list_html products)]> doc.
Proof.
  unfold ProductRenderer.renderProducts, Dom.set_innerHTML, list_html.
  destruct products as [|p ps]; [done |].
  change (length (p :: ps) =? 0)%nat with false. cbv iota.
  by rewrite map_fmap, join_empty_separator.
Qed.

Lemma run_view_insert `{Intl} (this : ProductRenderer.t) (op : view_op)
    (doc : gmap jsstring Dom.Content) :
  run_view this op doc
    = <[ProductRenderer.container this := Dom.Markup (view_html op)]> doc.
Proof. destruct op; simpl; [done | done | apply renderProducts_insert]. Qed.

(** X17. Each of [showLoading], [showError] and [renderProducts] puts
    its own markup in the container and touches no other element, and a
    later one of them wipes out the earlier one: after any two in a row
    the page is as after the second alone. *)
Theorem view_last_wins `{Intl} (this : ProductRenderer.t) (a b : view_op)
    (doc : gmap jsstring Dom.Content) :
  run_view this a doc !! ProductRenderer.container this
    = Some (Dom.Markup (view_html a))
  ∧ (∀ el, el ≠ ProductRenderer.container this →
       run_view this a doc !! el = doc !! el)
  ∧ run_view this b (run_view this a doc) = run_view this b doc.
Proof.
  rewrite !run_view_insert. split_and!.
  - apply lookup_insert_eq.
  - intros el Hel. by apply lookup_insert_ne.
  - apply insert_insert_eq.
Qed.

Lemma view_last_wins_witness :
  @run_view sample_intl (ProductCatalogApp.productRenderer sample_app)
     (ShowError ProductCatalogApp.LOAD_FAILED) (document sample_page)
    !! js "productCount" = Some (Dom.TextData []).
Proof.
  destruct (@view_last_wins sample_intl
              (ProductCatalogApp.productRenderer sample_app)
              (ShowError ProductCatalogApp.LOAD_FAILED) ShowLoading
              (document sample_page)) as (_ & Hother & _).
  rewrite Hother by (intros Heq; vm_compute in Heq; discriminate Heq).
  unfold sample_page, document.
  rewrite lookup_insert_ne by (intros Heq; vm_compute in Heq; discriminate Heq).
  apply lookup_insert_eq.
Defined.



(* ================================================================== *)
(** * Further properties of the controller *)
(* ================================================================== *)

Lemma init_on_success `{Intl} (g : Globals.t) (this : ProductCatalogApp.t)
    (PRODUCT_DATA : list ProductData.t) (w : World) (ps : list Product.t) :
  map_throwing Product.new PRODUCT_DATA = Normal ps →
  ProductCatalogApp.init g this PRODUCT_DATA w =
    ({| ProductCatalogApp.productService := {| ProductService.products := ps |};
        ProductCatalogApp.productRenderer :=
          ProductCatalogApp.productRenderer this;
        ProductCatalogApp.productCountElement :=
          ProductCatalogApp.productCountElement this |},
     {| document :=
          ProductRenderer.renderProducts
            (ProductCatalogApp.productRenderer this) ps
            (ProductCatalogApp.updateProductCount this (length ps)
               (ProductRenderer.showLoading
                  (ProductCatalogApp.productRenderer this) (document w)));
        console_error := console_error w |},
     Normal ()).
Proof.
  intros Hps. unfold ProductCatalogApp.init, ProductCatalogApp.init_try,
    ProductService.loadFromJson. rewrite Hps. reflexivity.
Qed.

Lemma init_on_failure `{Intl} (g : Globals.t) (this : ProductCatalogApp.t)
    (PRODUCT_DATA : list ProductData.t) (w : World) (e : JsError) :
  map_throwing Product.new PRODUCT_DATA = Throw e →
  ProductCatalogApp.init g this PRODUCT_DATA w =
    (this,
     (ProductCatalogApp.handleError g this e (loading_page this w)).1,
     (ProductCatalogApp.handleError g this e (loading_page this w)).2).
Proof.
  intros Hps. unfold ProductCatalogApp.init, ProductCatalogApp.init_try,
    ProductService.loadFromJson. rewrite Hps. simpl.
  by destruct (ProductCatalogApp.handleError _ _ _ _).
Qed.

Lemma init_try_failure `{Intl} (this this1 : ProductCatalogApp.t)
    (PRODUCT_DATA : list ProductData.t) (w w1 : World) (error : JsError) :
  ProductCatalogApp.init_try this PRODUCT_DATA w = (this1, w1, Throw error) →
  map_throwing Product.new PRODUCT_DATA = Throw error.
Proof.
  unfold ProductCatalogApp.init_try, ProductService.loadFromJson.
  destruct (map_throwing Product.new PRODUCT_DATA); simpl; congruence.
Qed.

Lemma updateProductCount_other (this : ProductCatalogApp.t) (count : nat)
    (doc : gmap jsstring Dom.Content) (el : jsstring) :
  ProductCatalogApp.productCountElement this ≠ Some el →
  ProductCatalogApp.updateProductCount this count doc !! el = doc !! el.
Proof.
  unfold ProductCatalogApp.updateProductCount, Dom.set_textContent.
  destruct (ProductCatalogApp.productCountElement this) as [c|]; [|done].
  intros Hne. apply lookup_insert_ne. intros Heq. apply Hne. by rewrite Heq.
Qed.

Lemma handleError_document (g : Globals.t) (this : ProductCatalogApp.t)
    (error : JsError) (w : World) :
  document (ProductCatalogApp.handleError g this error w).1
    = <[ProductRenderer.container (ProductCatalogApp.productRenderer this)
          := Dom.Markup
               (ProductRenderer.error_html ProductCatalogApp.LOAD_FAILED)]>
        (document w).
Proof.
  unfold ProductCatalogApp.handleError.
  destruct (Globals.console_defined g); [|done].
  destruct (Globals.process g) as [|process]; [done |].
  by destruct (ProductCatalogApp.not_production process).
Qed.

(** X19. When every record has a category, [init] returns normally in
    every environment: the service holds the converted products, the
    container shows the no-products paragraph or the cards, the count
    read-out, where the page has one, shows the number of records, and
    nothing is written to the console. *)
Theorem init_succeeds `{Intl} (g : Globals.t) (this : ProductCatalogApp.t)
    (PRODUCT_DATA : list ProductData.t) (w : World) :
  (∀ r, r ∈ PRODUCT_DATA → ProductData.category r ≠ None) →
  let after := ProductCatalogApp.init g this PRODUCT_DATA w in
  let grid :=
    ProductRenderer.container (ProductCatalogApp.productRenderer this) in
  ∃ ps,
    Forall2 converts_to PRODUCT_DATA ps
    ∧ after.2 = Normal ()
    ∧ ProductService.products (ProductCatalogApp.productService after.1.1) = ps
    ∧ document after.1.2 !! grid = Some (Dom.Markup (list_html ps))
    ∧ (∀ el, ProductCatalogApp.productCountElement this = Some el →
         el ≠ grid →
         document after.1.2 !! el
           = Some (Dom.TextData (count_text (length PRODUCT_DATA))))
    ∧ console_error after.1.2 = console_error w.
Proof.
  intros Hall after grid. destruct (convert_total PRODUCT_DATA Hall) as [ps Hps].
  exists ps. subst after. rewrite (init_on_success g this _ w ps Hps). simpl.
  apply convert_Normal in Hps. rewrite renderProducts_insert.
  split_and!; [done | done | done | apply lookup_insert_eq | | done].
  intros el Hel Hne. fold grid. rewrite lookup_insert_ne by done.
  unfold ProductCatalogApp.updateProductCount. rewrite Hel.
  unfold Dom.set_textContent. rewrite lookup_insert_eq.
  by rewrite <- (Forall2_length _ _ _ Hps).
Qed.

Lemma init_succeeds_witness :
  (@ProductCatalogApp.init sample_intl plain_browser sample_app three_records
     sample_page).2 = Normal ()
  ∧ document
      (@ProductCatalogApp.init sample_intl plain_browser sample_app
         three_records sample_page).1.2 !! js "productCount"
    = Some (Dom.TextData (js "3 sản phẩm")).
Proof.
  destruct (@init_succeeds sample_intl plain_browser sample_app three_records
              sample_page) as (ps & _ & Hnormal & _ & _ & Hcount & _).
  - intros r Hr. vm_compute in Hr.
    repeat (apply elem_of_cons in Hr as [-> | Hr]; [discriminate |]).
    by apply elem_of_nil in Hr.
  - split; [exact Hnormal |].
    apply (Hcount (js "productCount")); [reflexivity |].
    intros Heq. vm_compute in Heq. discriminate Heq.
Defined.

(** X20. Whatever happens, [init] writes to the container and to the
    count read-out only: every other element of the page is as before,
    the controller keeps its renderer and its read-out, and the console
    keeps its entries and gains at most one. *)
Theorem init_frame `{Intl} (g : Globals.t) (this : ProductCatalogApp.t)
    (PRODUCT_DATA : list ProductData.t) (w : World) :
  let after := ProductCatalogApp.init g this PRODUCT_DATA w in
  (∀ el,
     el ≠ ProductRenderer.container (ProductCatalogApp.productRenderer this) →
     ProductCatalogApp.productCountElement this ≠ Some el →
     document after.1.2 !! el = document w !! el)
  ∧ ProductCatalogApp.productRenderer after.1.1
    = ProductCatalogApp.productRenderer this
  ∧ ProductCatalogApp.productCountElement after.1.1
    = ProductCatalogApp.productCountElement this
  ∧ ∃ logged, console_error after.1.2 = console_error w ++ logged
              ∧ (length logged ≤ 1)%nat.
Proof.
  intros after. subst after.
  destruct (map_throwing Product.new PRODUCT_DATA) as [ps|e] eqn:Hps.
  - rewrite (init_on_success g this _ w ps Hps). simpl.
    split; [|split; [done |split; [done |]]].
    + intros el Hgrid Hcount. rewrite renderProducts_insert.
      rewrite lookup_insert_ne by done.
      rewrite updateProductCount_other by done.
      unfold ProductRenderer.showLoading, Dom.set_innerHTML.
      by rewrite lookup_insert_ne.
    + exists []. rewrite app_nil_r. split; [done | simpl; lia].
  - rewrite (init_on_failure g this _ w e Hps). simpl.
    split; [|split; [done |split; [done |]]].
    + intros el Hgrid _. rewrite handleError_document.
      rewrite lookup_insert_ne by done.
      unfold loading_page, document, ProductRenderer.showLoading,
        Dom.set_innerHTML.
      by rewrite lookup_insert_ne.
    + unfold ProductCatalogApp.handleError.
      destruct (Globals.console_defined g);
        [|exists []; rewrite app_nil_r; split; [done | simpl; lia]].
      destruct (Globals.process g) as [|process];
        [exists []; rewrite app_nil_r; split; [done | simpl; lia] |].
      destruct (ProductCatalogApp.not_production process);
        [|exists []; rewrite app_nil_r; split; [done | simpl; lia]].
      eexists [_]. split; [done | simpl; lia].
Qed.

Lemma init_frame_witness :
  document
    (@ProductCatalogApp.init sample_intl development_build
       {| ProductCatalogApp.productService := ProductService.new;
          ProductCatalogApp.productRenderer :=
            {| ProductRenderer.container := js "productGrid" |};
          ProductCatalogApp.productCountElement := None |}
       broken_data sample_page).1.2 !! js "productCount"
  = Some (Dom.TextData []).
Proof.
  destruct (@init_frame sample_intl development_build
              {| ProductCatalogApp.productService := ProductService.new;
                 ProductCatalogApp.productRenderer :=
                   {| ProductRenderer.container := js "productGrid" |};
                 ProductCatalogApp.productCountElement := None |}
              broken_data sample_page) as (Hother & _).
  rewrite Hother.
  - unfold sample_page, document.
    rewrite lookup_insert_ne by (intros Heq; vm_compute in Heq; discriminate Heq).
    apply lookup_insert_eq.
  - intros Heq. vm_compute in Heq. discriminate Heq.
  - discriminate.
Defined.

(** X21. The two cases of [handleError] in which nothing is logged.
    Without a console the handler never reads [process] and [init]
    returns normally. With a console and no declared [process], reading
    it throws: [init] ends with a [ReferenceError] in place of the
    exception it caught. In both cases the console is as it was. *)
Theorem init_handler_guard `{Intl} (g : Globals.t)
    (this this1 : ProductCatalogApp.t) (PRODUCT_DATA : list ProductData.t)
    (w w1 : World) (error : JsError) :
  ProductCatalogApp.init_try this PRODUCT_DATA w = (this1, w1, Throw error) →
  let after := ProductCatalogApp.init g this PRODUCT_DATA w in
  (Globals.console_defined g = false →
     after.2 = Normal () ∧ console_error after.1.2 = console_error w)
  ∧ (Globals.console_defined g = true →
     Globals.process g = Globals.Undeclared →
     after.2 = Throw ReferenceError
     ∧ console_error after.1.2 = console_error w).
Proof.
  intros Htry%init_try_failure after. subst after.
  rewrite (init_on_failure g this _ w error Htry). simpl.
  unfold ProductCatalogApp.handleError. split.
  - by intros ->.
  - by intros -> ->.
Qed.

Lemma init_handler_guard_witness :
  (@ProductCatalogApp.init sample_intl plain_browser sample_app broken_data
     sample_page).2 = Throw ReferenceError
  ∧ console_error
      (@ProductCatalogApp.init sample_intl plain_browser sample_app
         broken_data sample_page).1.2 = [].
Proof.
  destruct (@init_handler_guard sample_intl plain_browser sample_app
              sample_app broken_data sample_page
              (loading_page sample_app sample_page) TypeError eq_refl)
    as [_ Hthrows].
  exact (Hthrows eq_refl eq_refl).
Defined.

(** X22. When the statements of the run throw, nothing but the container
    is written: the count read-out and every other element are as
    before, and the controller, with the products of its service, is the
    one [init] started with. *)
Theorem init_failure_leaves_count `{Intl} (g : Globals.t)
    (this this1 : ProductCatalogApp.t) (PRODUCT_DATA : list ProductData.t)
    (w w1 : World) (error : JsError) :
  ProductCatalogApp.init_try this PRODUCT_DATA w = (this1, w1, Throw error) →
  let after := ProductCatalogApp.init g this PRODUCT_DATA w in
  after.1.1 = this
  ∧ (∀ el,
       el ≠ ProductRenderer.container (ProductCatalogApp.productRenderer this) →
       document after.1.2 !! el = document w !! el).
Proof.
  intros Htry%init_try_failure after. subst after.
  rewrite (init_on_failure g this _ w error Htry). simpl.
  split; [done |]. intros el Hgrid. rewrite handleError_document.
  rewrite lookup_insert_ne by done.
  unfold loading_page, document, ProductRenderer.showLoading, Dom.set_innerHTML.
  by rewrite lookup_insert_ne.
Qed.

Lemma init_failure_leaves_count_witness :
  (@ProductCatalogApp.init sample_intl production_build sample_app broken_data
     sample_page).1.1 = sample_app
  ∧ document
      (@ProductCatalogApp.init sample_intl production_build sample_app
         broken_data sample_page).1.2 !! js "productCount"
    = Some (Dom.TextData []).
Proof.
  destruct (@init_failure_leaves_count sample_intl production_build sample_app
              sample_app broken_data sample_page
              (loading_page sample_app sample_page) TypeError eq_refl)
    as [Hsame Hother].
  split; [exact Hsame |].
  rewrite Hother by (intros Heq; vm_compute in Heq; discriminate Heq).
  unfold sample_page, document.
  rewrite lookup_insert_ne by (intros Heq; vm_compute in Heq; discriminate Heq).
  apply lookup_insert_eq.
Defined.


